(** * Audyssey settings of Denon AVR receivers: a shallow embedding of
    [denonavr/audyssey.py] and the properties of its public methods.

    The Python object is a record of eight attributes; every method is a
    computation in a state-and-exception monad over a [world] that holds
    the object, the receiver it talks to, the requests posted so far and
    the error lines logged so far. *)

From Stdlib Require Import ZArith Ascii String List.
From stdpp Require Import base option list gmap strings pretty.

Set Default Proof Using "Type".
Local Open Scope string_scope.
Local Open Scope Z_scope.
Local Open Scope list_scope.

(** ** Python values and exceptions *)

(** The values that reach the attributes and the setter arguments. *)
Inductive pyval :=
| PNone
| PBool (b : bool)
| PInt (n : Z)
| PStr (s : string).

(** The exceptions the module can meet outside the transport. *)
Inductive exn :=
| AttributeError
| ValueError
| LookupError
| ParseError.

#[global] Instance exn_eq_dec : EqDecision exn.
Proof. solve_decision. Defined.

Inductive result (A : Type) :=
| Return (a : A)
| Raise (e : exn).
Arguments Return {A} a.
Arguments Raise {A} e.

(** [str(value)] *)
Definition py_str (v : pyval) : string :=
  match v with
  | PNone => "None"
  | PBool true => "True"
  | PBool false => "False"
  | PInt n => pretty n
  | PStr s => s
  end.

(** ** [int(text)] on a string

    The builtin is not part of the module, and what it accepts depends
    on the interpreter: the digits and spaces of every script, and, from
    CPython 3.11 on, numerals up to a limit of digits that can be set.
    It is taken as it is: a function from a text, given by its UTF-8
    bytes, to the integer read, [None] where [int] raises [ValueError].
    Every statement below holds for whatever [int] is. *)
Class Builtins := {
  int : string → option Z
}.

Definition py_int `{!Builtins} (s : string) : result Z :=
  match int s with
  | Some n => Return n
  | None => Raise ValueError
  end.

(** *** [int] on ASCII text

    What CPython's [int] does on a text of ASCII characters, with the
    limit of 4300 digits it has unless told otherwise: white space
    around (tab to carriage return, and space), one optional sign, then
    digits in which single underscores may separate digits.  A text
    with a byte beyond ASCII is refused here, though Python reads some;
    the examples run on ASCII text. *)
Module AsciiInt.

Definition is_space (c : ascii) : bool :=
  let n := Z.of_nat (nat_of_ascii c) in
  ((9 <=? n) && (n <=? 13)) || (n =? 32).

Definition digit (c : ascii) : option Z :=
  let n := Z.of_nat (nat_of_ascii c) in
  if (48 <=? n) && (n <=? 57) then Some (n - 48) else None.

Definition is_underscore (c : ascii) : bool :=
  Z.of_nat (nat_of_ascii c) =? 95.

Fixpoint lstrip (s : list ascii) : list ascii :=
  match s with
  | c :: s' => if is_space c then lstrip s' else s
  | [] => []
  end.

Definition strip (s : list ascii) : list ascii :=
  reverse (lstrip (reverse (lstrip s))).

(** [after_digit] tells whether the character just read was a digit:
    an underscore, and the end of the text, are accepted only then. *)
Fixpoint digits (acc : Z) (after_digit : bool) (s : list ascii) : option Z :=
  match s with
  | [] => if after_digit then Some acc else None
  | c :: s' =>
      if is_underscore c then
        if after_digit then digits acc false s' else None
      else
        match digit c with
        | Some d => digits (10 * acc + d) true s'
        | None => None
        end
  end.

Definition signed (s : list ascii) : option Z :=
  match s with
  | "+"%char :: s' => digits 0 false s'
  | "-"%char :: s' => Z.opp <$> digits 0 false s'
  | _ => digits 0 false s
  end.

(** [sys.get_int_max_str_digits()] as the interpreter starts. *)
Definition max_str_digits : nat := 4300.

Definition digit_count (s : list ascii) : nat :=
  length (filter (λ c, is_Some (digit c)) s).

Definition parse (s : string) : option Z :=
  let body := strip (list_ascii_of_string s) in
  if decide (digit_count body ≤ max_str_digits)%nat then signed body
  else None.

#[global] Instance builtins : Builtins := {| int := parse |}.

End AsciiInt.

(** [bool(n)] on an integer *)
Definition py_bool (n : Z) : bool := negb (n =? 0).

(** ** Dictionaries and sets of the module *)

Inductive pyobj :=
| PyDict (d : gmap string string)
| PySet (s : gset (string * string)).

Definition items (o : pyobj) : list (string * string) :=
  match o with
  | PyDict d => map_to_list d
  | PySet s => elements s
  end.

(** [d.get(key)] on a dictionary whose keys are strings: [None] for a key
    that is not there, whatever its type. *)
Definition dict_get (d : gmap string string) (key : pyval) : pyval :=
  match key with
  | PStr k => from_option PStr PNone (d !! k)
  | _ => PNone
  end.

(** [o.get(key)]: a set has no attribute [get]. *)
Definition py_get (o : pyobj) (key : pyval) : result pyval :=
  match o with
  | PyDict d => Return (dict_get d key)
  | PySet _ => Raise AttributeError
  end.

(** [{(value, key) for key, value in m.items()}]: braces around a tuple
    make a set of pairs. *)
Definition swapped_pairs (m : pyobj) : pyobj :=
  PySet (list_to_set ((λ kv : string * string, (kv.2, kv.1)) <$> items m)).

Definition MULTI_EQ_MAP : pyobj :=
  PyDict (list_to_map
    [("0", "Off"); ("1", "Flat"); ("2", "L/R Bypass"); ("3", "Reference")]).
Definition MULTI_EQ_MAP_LABELS : pyobj := swapped_pairs MULTI_EQ_MAP.

Definition REF_LVL_OFFSET_MAP : pyobj :=
  PyDict (list_to_map
    [("0", "0dB"); ("1", "+5dB"); ("2", "+10dB"); ("3", "+15dB")]).
Definition REF_LVL_OFFSET_MAP_LABELS : pyobj := swapped_pairs REF_LVL_OFFSET_MAP.

Definition DYNAMIC_VOLUME_MAP : pyobj :=
  PyDict (list_to_map
    [("0", "Off"); ("1", "Light"); ("2", "Medium"); ("3", "Heavy")]).
Definition DYNAMIC_VOLUME_MAP_LABELS : pyobj := swapped_pairs DYNAMIC_VOLUME_MAP.

Definition COMMAND_ENDPOINT : string := "/goform/AppCommand0300.xml".

(** ** XML elements *)

Local Unset Elimination Schemes.
Inductive Element :=
| mkElement (tag : string) (attrib : gmap string string)
            (text : option string) (children : list Element).
Local Set Elimination Schemes.

Definition tag (e : Element) : string :=
  match e with mkElement t _ _ _ => t end.
Definition attrib (e : Element) : gmap string string :=
  match e with mkElement _ a _ _ => a end.
Definition text (e : Element) : option string :=
  match e with mkElement _ _ x _ => x end.
Definition children (e : Element) : list Element :=
  match e with mkElement _ _ _ c => c end.

(** [ET.Element(tag, **attrs)] and [ET.SubElement] build trees bottom-up
    here, since the tree is a value. *)
Definition element (t : string) (attrs : list (string * string))
    (x : option string) (c : list Element) : Element :=
  mkElement t (list_to_map attrs) x c.

(** [elem.get(key)] *)
Definition attr (key : string) (e : Element) : option string :=
  attrib e !! key.

(** One step of a path: the children, in document order, that carry the
    tag, of every element selected so far. *)
Definition select_child (t : string) (sel : list Element) : list Element :=
  sel ≫= (λ e, filter (λ c, tag c = t) (children e)).

(** [elem.find(path)] for a path of child steps, as [./cmd/list] or
    [cmd]. *)
Definition find (path : list string) (e : Element) : option Element :=
  head (foldl (λ sel t, select_child t sel) [e] path).


(** A [text] attribute, [None] or a string, as a Python value. *)
Definition of_text (x : option string) : pyval :=
  from_option PStr PNone x.

(** [elem.text] where [elem] may be [None]. *)
Definition getattr_text (elem : option Element) : result (option string) :=
  match elem with
  | Some e => Return (text e)
  | None => Raise AttributeError
  end.

(** ** The object *)

Record Audyssey := mkAudyssey {
  dynamiceq : option bool;
  dynamiceq_control : option bool;
  reflevoffset : pyval;
  reflevoffset_control : option bool;
  dynamicvol : pyval;
  dynamicvol_control : option bool;
  multeq : pyval;
  multeq_control : option bool
}.

(** [__init__] *)
Definition init : Audyssey :=
  mkAudyssey None None PNone None PNone None PNone None.

Definition with_dynamiceq (v : option bool) (a : Audyssey) : Audyssey :=
  mkAudyssey v (dynamiceq_control a) (reflevoffset a) (reflevoffset_control a)
    (dynamicvol a) (dynamicvol_control a) (multeq a) (multeq_control a).
Definition with_reflevoffset (v : pyval) (a : Audyssey) : Audyssey :=
  mkAudyssey (dynamiceq a) (dynamiceq_control a) v (reflevoffset_control a)
    (dynamicvol a) (dynamicvol_control a) (multeq a) (multeq_control a).
Definition with_dynamicvol (v : pyval) (a : Audyssey) : Audyssey :=
  mkAudyssey (dynamiceq a) (dynamiceq_control a) (reflevoffset a)
    (reflevoffset_control a) v (dynamicvol_control a) (multeq a)
    (multeq_control a).
Definition with_multeq (v : pyval) (a : Audyssey) : Audyssey :=
  mkAudyssey (dynamiceq a) (dynamiceq_control a) (reflevoffset a)
    (reflevoffset_control a) (dynamicvol a) (dynamicvol_control a) v
    (multeq_control a).

(** [setattr(self, name + "_control", v)], for the names of
    [valid_params]; the loop of [update] lets no other name through. *)
Definition setattr_control (name : string) (v : bool) (a : Audyssey) : Audyssey :=
  if decide (name = "dynamiceq") then
    mkAudyssey (dynamiceq a) (Some v) (reflevoffset a) (reflevoffset_control a)
      (dynamicvol a) (dynamicvol_control a) (multeq a) (multeq_control a)
  else if decide (name = "reflevoffset") then
    mkAudyssey (dynamiceq a) (dynamiceq_control a) (reflevoffset a) (Some v)
      (dynamicvol a) (dynamicvol_control a) (multeq a) (multeq_control a)
  else if decide (name = "dynamicvol") then
    mkAudyssey (dynamiceq a) (dynamiceq_control a) (reflevoffset a)
      (reflevoffset_control a) (dynamicvol a) (Some v) (multeq a)
      (multeq_control a)
  else if decide (name = "multeq") then
    mkAudyssey (dynamiceq a) (dynamiceq_control a) (reflevoffset a)
      (reflevoffset_control a) (dynamicvol a) (dynamicvol_control a)
      (multeq a) (Some v)
  else a.

(** ** The receiver and the world *)

(** The bytes a receiver answers with, by what [ET.fromstring] makes of
    them: the root of a document, [ParseError] for bytes that are no
    XML, and, for a declaration of an encoding the parser cannot serve,
    [LookupError] (an encoding it does not know) or [ValueError],
    maybe of a subclass (a multi-byte encoding, or one that does not
    decode the bytes).  [send_command] catches the second of the four
    only. *)
Inductive body :=
| Malformed
| WellFormed (root : Element)
| UnknownEncoding
| UnusableEncoding.

Definition fromstring (b : body) : result Element :=
  match b with
  | Malformed => Raise ParseError
  | WellFormed root => Return root
  | UnknownEncoding => Raise LookupError
  | UnusableEncoding => Raise ValueError
  end.

(** How a call of [send_post_command] ends: with one of the two
    exceptions of [requests] it is known to raise, or with a value,
    [None] or the bytes of the answer. *)
Inductive post_outcome :=
| ConnectTimeout
| RequestException
| Returned (r : option body).

(** The serialised document of a request stands for its bytes. *)
Record request := mkRequest {
  endpoint : string;
  payload : Element
}.

(** The receiver the object is built with: its [host] and its
    [send_post_command], which may change the receiver. *)
Class Receiver (device : Type) := {
  host : device → string;
  send_post_command : string → Element → device → post_outcome * device
}.

(** A call of [_LOGGER.error]: the format and its arguments. *)
Record log_line := mkLog {
  format : string;
  args : list string
}.

Section Audyssey.

Context {device : Type} `{!Receiver device} `{!Builtins}.

Record world := mkWorld {
  self : Audyssey;
  receiver : device;
  posted : list request;
  logged : list log_line
}.

(** Computations that read and write the world and may raise. *)
Definition M (A : Type) : Type := world → result A * world.

Definition ret {A} (a : A) : M A := λ w, (Return a, w).

Definition bind {A B} (m : M A) (k : A → M B) : M B := λ w,
  match m w with
  | (Return a, w') => k a w'
  | (Raise e, w') => (Raise e, w')
  end.

(** A pure step that may raise. *)
Definition lift {A} (r : result A) : M A := λ w, (r, w).

(** [try: m  except e: handler] *)
Definition try_except {A} (m : M A) (e : exn) (handler : M A) : M A := λ w,
  match m w with
  | (Return a, w') => (Return a, w')
  | (Raise e', w') => if decide (e' = e) then handler w' else (Raise e', w')
  end.

Definition getself : M Audyssey := λ w, (Return (self w), w).

Definition set_self (f : Audyssey → Audyssey) (w : world) : world :=
  mkWorld (f (self w)) (receiver w) (posted w) (logged w).

Definition modify (f : Audyssey → Audyssey) : M unit := λ w,
  (Return tt, set_self f w).

Definition error (fmt : string) (a : list string) : M unit := λ w,
  (Return tt,
   mkWorld (self w) (receiver w) (posted w) (logged w ++ [mkLog fmt a])).

(** [self.receiver.send_post_command(endpoint, body)] *)
Definition post (ep : string) (doc : Element) : M post_outcome := λ w,
  let '(out, d) := send_post_command ep doc (receiver w) in
  (Return out,
   mkWorld (self w) d (posted w ++ [mkRequest ep doc]) (logged w)).

Definition gethost : M string := λ w, (Return (host (receiver w)), w).

Notation "x <- m ;; k" := (bind m (λ x, k))
  (at level 100, m at next level, right associativity).
Notation "m ;;; k" := (bind m (λ _, k))
  (at level 100, right associativity).

(** The document [<tx><cmd id="3"><name>..</name><list>..</list></cmd></tx>]
    both commands build. *)
Definition command (name : string) (params : list Element) : Element :=
  element "tx" [] None
    [element "cmd" [("id", "3")] None
       [element "name" [] (Some name) [];
        element "list" [] None params]].

Definition send_command (xml_tree : Element) : M (option Element) :=
  out <- post COMMAND_ENDPOINT xml_tree ;;
  match out with
  | ConnectTimeout => ret None
  | RequestException =>
      h <- gethost ;;
      error "No connection to %s end point on host %s"
        [COMMAND_ENDPOINT; h] ;;;
      ret None
  | Returned None => ret None
  | Returned (Some b) =>
      try_except
        (root <- lift (fromstring b) ;;
         ret (Some root))
        ParseError
        (h <- gethost ;;
         error "End point %s on host %s returned malformed XML."
           [COMMAND_ENDPOINT; h] ;;;
         ret None)
  end.

Definition valid_params : list string :=
  ["dynamiceq"; "reflevoffset"; "dynamicvol"; "multeq"].

(** The chain of [if]/[elif] over the name of an element: the value
    the element gives to its attribute. *)
Definition assign_value (name : string) (param : Element) : M unit :=
  if decide (name = "multeq") then
    v <- lift (py_get MULTI_EQ_MAP (of_text (text param))) ;;
    modify (with_multeq v)
  else if decide (name = "dynamiceq") then
    match text param with
    | Some t =>
        n <- lift (py_int t) ;;
        modify (with_dynamiceq (Some (py_bool n)))
    | None => modify (with_dynamiceq None)
    end
  else if decide (name = "reflevoffset") then
    a <- getself ;;
    if decide (dynamiceq a = Some false) then
      modify (with_reflevoffset (PBool false))
    else
      v <- lift (py_get REF_LVL_OFFSET_MAP (of_text (text param))) ;;
      modify (with_reflevoffset v)
  else if decide (name = "dynamicvol") then
    v <- lift (py_get DYNAMIC_VOLUME_MAP (of_text (text param))) ;;
    modify (with_dynamicvol v)
  else ret tt.

(** The last [if] of the loop: the [control] attribute, if there is
    one, sets the flag of the same name. *)
Definition assign_control (name : string) (param : Element) : M unit :=
  match attr "control" param with
  | Some c =>
      n <- lift (py_int c) ;;
      modify (setattr_control name (py_bool n))
  | None => ret tt
  end.

(** The body of the loop of [update], for one element of the list; an
    element without a name has the name [None], which is not in
    [valid_params]. *)
Definition update_param (param : Element) : M unit :=
  match attr "name" param with
  | Some name =>
      if decide (name ∈ valid_params) then
        assign_value name param ;;;
        assign_control name param
      else ret tt
  | None => ret tt
  end.

(** [for param in params: ...] *)
Fixpoint for_each (params : list Element) : M unit :=
  match params with
  | [] => ret tt
  | param :: rest => update_param param ;;; for_each rest
  end.

(** The document [update] sends. *)
Definition get_command : Element :=
  command "GetAudyssey"
    ((λ param, element "param" [("name", param)] None []) <$> valid_params).

Definition update : M bool :=
  response <- send_command get_command ;;
  match response with
  | None => ret false
  | Some response =>
      match find ["cmd"; "list"] response with
      | None => ret false
      | Some audyssey_params =>
          for_each (children audyssey_params) ;;;
          ret true
      end
  end.

(** The document [_set_audyssey] sends. *)
Definition set_command (parameter : string) (value : pyval) : Element :=
  command "SetAudyssey"
    [element "param" [("name", parameter)] (Some (py_str value)) []].

Definition _set_audyssey (parameter : string) (value : pyval) : M bool :=
  response <- send_command (set_command parameter value) ;;
  match response with
  | None => ret false
  | Some response =>
      try_except
        (t <- lift (getattr_text (find ["cmd"] response)) ;;
         if decide (t = Some "OK") then ret true else ret false)
        AttributeError
        (ret false)
  end.

Definition dynamiceq_off : M unit :=
  ok <- _set_audyssey "dynamiceq" (PInt 0) ;;
  if ok then modify (with_dynamiceq (Some false)) else ret tt.

Definition dynamiceq_on : M unit :=
  ok <- _set_audyssey "dynamiceq" (PInt 1) ;;
  if ok then modify (with_dynamiceq (Some true)) else ret tt.

Definition set_multieq (setting : pyval) : M unit :=
  value <- lift (py_get MULTI_EQ_MAP_LABELS setting) ;;
  ok <- _set_audyssey "multeq" value ;;
  if ok then modify (with_multeq setting) else ret tt.

Definition set_reflevoffset (setting : pyval) : M unit :=
  a <- getself ;;
  if decide (dynamiceq a = Some true) then
    value <- lift (py_get REF_LVL_OFFSET_MAP_LABELS setting) ;;
    ok <- _set_audyssey "reflevoffset" value ;;
    if ok then modify (with_reflevoffset setting) else ret tt
  else ret tt.

Definition set_dynamicvol (setting : pyval) : M unit :=
  value <- lift (py_get DYNAMIC_VOLUME_MAP_LABELS setting) ;;
  ok <- _set_audyssey "dynamicvol" value ;;
  if ok then modify (with_dynamicvol setting) else ret tt.

(** ** The public interface as operations *)

Inductive op :=
| Update
| DynamicEqOn
| DynamicEqOff
| SetMultiEq (setting : pyval)
| SetRefLevOffset (setting : pyval)
| SetDynamicVol (setting : pyval).

(** A call of a public method and the value it returns. *)
Definition call (o : op) : M pyval :=
  match o with
  | Update => b <- update ;; ret (PBool b)
  | DynamicEqOn => dynamiceq_on ;;; ret PNone
  | DynamicEqOff => dynamiceq_off ;;; ret PNone
  | SetMultiEq setting => set_multieq setting ;;; ret PNone
  | SetRefLevOffset setting => set_reflevoffset setting ;;; ret PNone
  | SetDynamicVol setting => set_dynamicvol setting ;;; ret PNone
  end.

(** The worlds a freshly built object comes to through calls that
    return, each of them allowed by [ok]. *)
Inductive reachable (ok : op → world → Prop) : world → Prop :=
| reachable_init d :
    reachable ok (mkWorld init d [] [])
| reachable_call w o v w' :
    reachable ok w → ok o w → call o w = (Return v, w') →
    reachable ok w'.

(** ** Vocabulary of the statements *)

(** The parsed answer the receiver of [w] gives to a document, if it
    gives one. *)
Definition answer (w : world) (doc : Element) : option Element :=
  match (send_post_command COMMAND_ENDPOINT doc (receiver w)).1 with
  | Returned (Some (WellFormed root)) => Some root
  | _ => None
  end.

(** The exception of the parser that [send_command] lets through on
    the answer to a document, if the answer is one the parser cannot
    serve. *)
Definition refused (w : world) (doc : Element) : option exn :=
  match (send_post_command COMMAND_ENDPOINT doc (receiver w)).1 with
  | Returned (Some UnknownEncoding) => Some LookupError
  | Returned (Some UnusableEncoding) => Some ValueError
  | _ => None
  end.

(** What [send_command] comes back with. *)
Definition replied (w : world) (doc : Element) : result (option Element) :=
  match refused w doc with
  | Some e => Raise e
  | None => Return (answer w doc)
  end.

(** The world once a document is posted and answered. *)
Definition posted_to (w : world) (doc : Element) : world :=
  (send_command doc w).2.

(** The elements [update] would go through in [w]. *)
Definition listed (w : world) : option (list Element) :=
  match answer w get_command with
  | Some root => children <$> find ["cmd"; "list"] root
  | None => None
  end.

End Audyssey.

Arguments world : clear implicits.
Arguments M : clear implicits.

(** No child [cmd] of the root has a child [list]. *)
Definition lacks_cmd_list (root : Element) : Prop :=
  ∀ c l, c ∈ children root → tag c = "cmd" →
         l ∈ children c → tag l ≠ "list".

(** The first child [cmd] of the root has the text [OK]. *)
Definition cmd_text_OK (root : Element) : Prop :=
  ∃ pre c post,
    children root = pre ++ c :: post ∧
    Forall (λ e, tag e ≠ "cmd") pre ∧
    tag c = "cmd" ∧ text c = Some "OK".

Definition named (name : string) (p : Element) : Prop :=
  attr "name" p = Some name.

#[global] Instance named_dec name p : Decision (named name p).
Proof. unfold named. apply _. Defined.

(** Whether [int] accepts an optional string; [None] is never given to
    it. *)
Definition is_int `{!Builtins} (x : option string) : bool :=
  match x with
  | Some t => bool_decide (is_Some (int t))
  | None => true
  end.

(** [int] accepts what [update] gives it from an element: the text of a
    [dynamiceq] element and the [control] attribute of an element with
    one of the four names. *)
Definition integral `{!Builtins} (p : Element) : bool :=
  match attr "name" p with
  | Some name =>
      if decide (name ∈ valid_params) then
        (if decide (name = "dynamiceq") then is_int (text p) else true)
        && is_int (attr "control" p)
      else true
  | None => true
  end.

(** Every [dynamiceq] element of the list has a [reflevoffset] element
    somewhere after it. *)
Definition offset_follows (ps : list Element) : Prop :=
  ∀ pre d post, ps = pre ++ d :: post → named "dynamiceq" d →
                Exists (named "reflevoffset") post.

(** The cross-field rule of the two attributes. *)
Definition offset_rule (a : Audyssey) : Prop :=
  dynamiceq a = Some false → reflevoffset a = PBool false.

(** The calls after which the rule is kept: any but [dynamiceq_off], an
    [update] only when the list it goes through, if any, has a
    [reflevoffset] element after every [dynamiceq] element. *)
Definition keeps_rule {device : Type} `{!Receiver device} `{!Builtins}
    (o : op) (w : world device) : Prop :=
  o ≠ DynamicEqOff ∧
  (o = Update → ∀ ps, listed w = Some ps → offset_follows ps).

(** The calls that cannot raise: turning DynamicEQ on or off and
    [update], when the answer is not one the parser raises on, and
    for [update] when the list, if any, gives [int] only texts it
    accepts; and [set_reflevoffset] while [dynamiceq] is not [True]. *)
Definition cannot_raise {device : Type} `{!Receiver device} `{!Builtins}
    (o : op) (w : world device) : Prop :=
  match o with
  | Update =>
      refused w get_command = None ∧
      ∀ ps, listed w = Some ps → Forall integral ps
  | DynamicEqOn => refused w (set_command "dynamiceq" (PInt 1)) = None
  | DynamicEqOff => refused w (set_command "dynamiceq" (PInt 0)) = None
  | SetRefLevOffset _ => dynamiceq (self w) ≠ Some true
  | SetMultiEq _ | SetDynamicVol _ => False
  end.

(** A decimal numeral: its digits, most significant first. *)
Module Decimal.

Definition char (d : Z) : ascii := ascii_of_nat (Z.to_nat (48 + d)).

Definition numeral (ds : list Z) : string :=
  string_of_list_ascii (char <$> ds).

Definition value (ds : list Z) : Z :=
  foldl (λ acc d, 10 * acc + d) 0 ds.

Definition digits (ds : list Z) : Prop :=
  ds ≠ [] ∧ Forall (λ d, 0 ≤ d ≤ 9) ds.

End Decimal.

(** ** A receiver that plays a script

    Each post takes the next outcome of the script; when the script is
    over the receiver answers nothing. *)
Module Script.

#[global] Instance receiver : Receiver (list post_outcome) := {
  host _ := "avr";
  send_post_command _ _ d :=
    match d with
    | out :: d' => (out, d')
    | [] => (Returned None, [])
    end
}.

Definition fresh (script : list post_outcome) : world (list post_outcome) :=
  mkWorld init script [] [].

Definition param (name code : string) (attrs : list (string * string)) : Element :=
  element "param" (("name", name) :: attrs) (Some code) [].

(** [<rx><cmd><list>...</list></cmd></rx>] *)
Definition rx_list (params : list Element) : post_outcome :=
  Returned (Some (WellFormed
    (element "rx" [] None
       [element "cmd" [] None [element "list" [] None params]]))).

(** [<rx><cmd>text</cmd></rx>] *)
Definition rx_cmd (t : string) : post_outcome :=
  Returned (Some (WellFormed
    (element "rx" [] None [element "cmd" [] (Some t) []]))).

End Script.

(** ** Attributes by name *)

(** The element has one of the four names of [valid_params]. *)
Definition recognised (p : Element) : Prop :=
  match attr "name" p with
  | Some name => name ∈ valid_params
  | None => False
  end.

#[global] Instance recognised_dec p : Decision (recognised p).
Proof. unfold recognised. destruct (attr "name" p); apply _. Defined.

(** [getattr(self, name)] for the four names; a boolean attribute as the
    Python value it is. *)
Definition getattr (name : string) (a : Audyssey) : pyval :=
  if decide (name = "dynamiceq") then from_option PBool PNone (dynamiceq a)
  else if decide (name = "reflevoffset") then reflevoffset a
  else if decide (name = "dynamicvol") then dynamicvol a
  else if decide (name = "multeq") then multeq a
  else PNone.

(** [getattr(self, name + "_control")] for the four names. *)
Definition getattr_control (name : string) (a : Audyssey) : option bool :=
  if decide (name = "dynamiceq") then dynamiceq_control a
  else if decide (name = "reflevoffset") then reflevoffset_control a
  else if decide (name = "dynamicvol") then dynamicvol_control a
  else if decide (name = "multeq") then multeq_control a
  else None.

(** The pairs of code and label the three tables are written with. *)
Definition MULTI_EQ_PAIRS : list (string * string) :=
  [("0", "Off"); ("1", "Flat"); ("2", "L/R Bypass"); ("3", "Reference")].
Definition REF_LVL_OFFSET_PAIRS : list (string * string) :=
  [("0", "0dB"); ("1", "+5dB"); ("2", "+10dB"); ("3", "+15dB")].
Definition DYNAMIC_VOLUME_PAIRS : list (string * string) :=
  [("0", "Off"); ("1", "Light"); ("2", "Medium"); ("3", "Heavy")].

(** [None], or a label of the table. *)
Definition labelled (pairs : list (string * string)) (v : pyval) : Prop :=
  v = PNone ∨ ∃ code label, (code, label) ∈ pairs ∧ v = PStr label.

(** What the three attributes with labels may hold. *)
Definition values_in_range (a : Audyssey) : Prop :=
  labelled MULTI_EQ_PAIRS (multeq a) ∧
  labelled DYNAMIC_VOLUME_PAIRS (dynamicvol a) ∧
  (reflevoffset a = PBool false ∨
   labelled REF_LVL_OFFSET_PAIRS (reflevoffset a)).

(** * Properties *)

(** ** Paths *)

Section Paths.

Lemma head_filter_Some {A} (P : A → Prop) `{!∀ x, Decision (P x)}
    (l : list A) (c : A) :
  head (filter P l) = Some c ↔
  ∃ pre post, l = pre ++ c :: post ∧ Forall (λ x, ¬ P x) pre ∧ P c.
Proof.
  induction l as [|x l IH]; simpl.
  - split; [done|]. intros (pre & post & E & _). by destruct pre.
  - rewrite filter_cons. destruct (decide (P x)) as [Hx|Hx]; simpl.
    + split.
      * intros [= ->]. exists [], l. by repeat split.
      * intros (pre & post & E & Hpre & Hc).
        destruct pre as [|y pre]; simplify_eq/=; [done|].
        by inversion Hpre.
    + rewrite IH. split.
      * intros (pre & post & -> & Hpre & Hc).
        exists (x :: pre), post. repeat split; [by constructor | done].
      * intros (pre & post & E & Hpre & Hc).
        destruct pre as [|y pre]; simplify_eq/=; [done|].
        exists pre, post. inversion Hpre. by repeat split.
Qed.

Lemma find_cmd (root : Element) :
  find ["cmd"] root = head (filter (λ c, tag c = "cmd") (children root)).
Proof. unfold find, select_child. simpl. by rewrite app_nil_r. Qed.

Lemma find_cmd_OK (root : Element) :
  (∃ c, find ["cmd"] root = Some c ∧ text c = Some "OK") ↔ cmd_text_OK root.
Proof.
  rewrite find_cmd. unfold cmd_text_OK. split.
  - intros (c & Hc & Ht). apply head_filter_Some in Hc as (pre & post & ? & ? & ?).
    by exists pre, c, post.
  - intros (pre & c & post & E & Hpre & Htag & Ht). exists c. split; [|done].
    apply head_filter_Some. by exists pre, post.
Qed.

Lemma find_cmd_list (root : Element) :
  find ["cmd"; "list"] root =
  head (filter (λ c, tag c = "cmd") (children root)
          ≫= (λ c, filter (λ l, tag l = "list") (children c))).
Proof. unfold find, select_child. simpl. by rewrite app_nil_r. Qed.

Lemma find_cmd_list_None (root : Element) :
  find ["cmd"; "list"] root = None ↔ lacks_cmd_list root.
Proof.
  rewrite find_cmd_list, head_None. unfold lacks_cmd_list. split.
  - intros E c l Hc Htag Hl Hlist.
    assert (l ∈ filter (λ c, tag c = "cmd") (children root)
                  ≫= (λ c, filter (λ l, tag l = "list") (children c))) as Hin.
    { apply list_elem_of_bind. exists c. split.
      - by apply list_elem_of_filter.
      - by apply list_elem_of_filter. }
    rewrite E in Hin. by apply not_elem_of_nil in Hin.
  - intros H.
    destruct (_ ≫= _) as [|l ls] eqn:E; [done|]. exfalso.
    assert (l ∈ filter (λ c, tag c = "cmd") (children root)
                  ≫= (λ c, filter (λ l, tag l = "list") (children c))) as Hin
      by (rewrite E; left).
    apply list_elem_of_bind in Hin as (c & Hl & Hc).
    apply list_elem_of_filter in Hl as [Hlist Hl].
    apply list_elem_of_filter in Hc as [Hcmd Hc].
    by eapply H.
Qed.

End Paths.

(** ** Posting a document *)

Ltac unfold_m :=
  unfold bind, ret, lift, modify, getself, gethost, error, post, try_except.

Section Transport.

Context {device : Type} `{!Receiver device} `{!Builtins}.
Implicit Types (w : world device) (doc : Element).

(** [send_command] posts once and leaves the object alone; it returns
    the parsed answer if there is one, and raises only what the parser
    raises on an encoding it cannot serve. *)
Lemma send_command_spec w doc :
  ∃ w', send_command doc w = (replied w doc, w') ∧
        self w' = self w ∧
        posted w' = posted w ++ [mkRequest COMMAND_ENDPOINT doc].
Proof.
  unfold send_command, replied, refused, answer. unfold_m.
  destruct (send_post_command _ _ _) as [out d]; simpl.
  destruct out as [| |[[|root| |]|]]; simpl; eauto.
Qed.

Lemma send_command_posted_to w doc :
  send_command doc w = (replied w doc, posted_to w doc).
Proof.
  unfold posted_to. destruct (send_command_spec w doc) as (w' & -> & _). done.
Qed.

Lemma self_posted_to w doc : self (posted_to w doc) = self w.
Proof.
  unfold posted_to. by destruct (send_command_spec w doc) as (w' & -> & ? & _).
Qed.

Lemma answer_not_refused w doc root :
  answer w doc = Some root → refused w doc = None.
Proof.
  unfold answer, refused.
  by destruct (send_post_command _ _ _).1 as [| |[[|r| |]|]].
Qed.

Lemma replied_answer w doc root :
  answer w doc = Some root → replied w doc = Return (Some root).
Proof.
  intros Ha. unfold replied. by rewrite (answer_not_refused _ _ _ Ha), Ha.
Qed.

(** What [_set_audyssey] comes to, by the answer. *)
Lemma set_audyssey_eq parameter value w :
  _set_audyssey parameter value w =
  (match refused w (set_command parameter value) with
   | Some e => Raise e
   | None =>
       Return
         (match answer w (set_command parameter value) with
          | Some root =>
              match find ["cmd"] root with
              | Some c => bool_decide (text c = Some "OK")
              | None => false
              end
          | None => false
          end)
   end,
   posted_to w (set_command parameter value)).
Proof.
  unfold _set_audyssey. unfold bind at 1.
  rewrite send_command_posted_to. unfold replied.
  destruct (refused _ _) as [e|]; [done|].
  destruct (answer _ _) as [root|]; [|done].
  unfold_m. destruct (find ["cmd"] root) as [c|]; simpl; [|done].
  destruct (decide (text c = Some "OK")) as [E|E].
  - by rewrite bool_decide_eq_true_2.
  - by rewrite bool_decide_eq_false_2.
Qed.

End Transport.

(** ** One element of the list *)

Section Param.

Context {device : Type} `{!Receiver device} `{!Builtins}.
Implicit Types (w : world device) (p : Element) (a : Audyssey).

Lemma valid_params_spec name :
  name ∈ valid_params ↔
  name = "dynamiceq" ∨ name = "reflevoffset" ∨
  name = "dynamicvol" ∨ name = "multeq".
Proof. unfold valid_params. rewrite !elem_of_cons, elem_of_nil. tauto. Qed.

Lemma py_get_dict d key : py_get (PyDict d) key = Return (dict_get d key).
Proof. done. Qed.

Lemma setattr_control_dynamiceq name v a :
  dynamiceq (setattr_control name v a) = dynamiceq a.
Proof. unfold setattr_control. by repeat case_decide. Qed.

Lemma setattr_control_reflevoffset name v a :
  reflevoffset (setattr_control name v a) = reflevoffset a.
Proof. unfold setattr_control. by repeat case_decide. Qed.

(** The [control] step raises exactly on an attribute that is no
    text [int] accepts, and touches neither of the two attributes of
    the rule. *)
Lemma assign_control_spec name p w :
  if is_int (attr "control" p) then
    ∃ w', assign_control name p w = (Return tt, w') ∧
          dynamiceq (self w') = dynamiceq (self w) ∧
          reflevoffset (self w') = reflevoffset (self w)
  else assign_control name p w = (Raise ValueError, w).
Proof.
  unfold assign_control, is_int, py_int. unfold_m.
  destruct (attr "control" p) as [c|]; [|by eauto].
  destruct (int c) as [n|] eqn:E.
  - rewrite bool_decide_eq_true_2 by eauto. eexists. split; [done|].
    unfold set_self; simpl.
    by rewrite setattr_control_dynamiceq, setattr_control_reflevoffset.
  - rewrite bool_decide_eq_false_2 by (by intros [? ?]). done.
Qed.

Lemma assign_value_multeq p w :
  ∃ v, assign_value "multeq" p w = (Return tt, set_self (with_multeq v) w).
Proof. unfold assign_value, MULTI_EQ_MAP. rewrite py_get_dict. by eexists. Qed.

Lemma assign_value_dynamicvol p w :
  ∃ v, assign_value "dynamicvol" p w =
       (Return tt, set_self (with_dynamicvol v) w).
Proof.
  unfold assign_value, DYNAMIC_VOLUME_MAP. rewrite py_get_dict. by eexists.
Qed.

Lemma assign_value_dynamiceq p w :
  assign_value "dynamiceq" p w =
  match text p with
  | Some t =>
      match int t with
      | Some n =>
          (Return tt, set_self (with_dynamiceq (Some (py_bool n))) w)
      | None => (Raise ValueError, w)
      end
  | None => (Return tt, set_self (with_dynamiceq None) w)
  end.
Proof.
  unfold assign_value, py_int. unfold_m. simpl.
  destruct (text p) as [t|]; [|done]. by destruct (int t).
Qed.

Lemma assign_value_reflevoffset p w :
  ∃ v, assign_value "reflevoffset" p w =
       (Return tt, set_self (with_reflevoffset v) w) ∧
       (dynamiceq (self w) = Some false → v = PBool false).
Proof.
  unfold assign_value, REF_LVL_OFFSET_MAP. rewrite py_get_dict. unfold_m.
  simpl. destruct (decide (dynamiceq (self w) = Some false)); by eexists.
Qed.

(** An element without one of the four names is skipped. *)
Lemma update_param_skip p w :
  (∀ name, named name p → name ∉ valid_params) →
  update_param p w = (Return tt, w).
Proof.
  intros Hn. unfold update_param.
  destruct (attr "name" p) as [name|] eqn:E; [|done].
  by rewrite decide_False by (by apply Hn).
Qed.

Lemma update_param_named p w name :
  named name p → name ∈ valid_params →
  update_param p w =
  bind (assign_value name p) (λ _, assign_control name p) w.
Proof.
  unfold named, update_param. intros -> Hv. by rewrite decide_True.
Qed.

(** Case analysis on the name of an element: skipped, or one of the
    four names. *)
Lemma name_cases p :
  (∀ name, named name p → name ∉ valid_params) ∨
  named "dynamiceq" p ∨ named "reflevoffset" p ∨
  named "dynamicvol" p ∨ named "multeq" p.
Proof.
  unfold named. destruct (attr "name" p) as [name|]; [|by left].
  destruct (decide (name ∈ valid_params)) as [Hv|Hv].
  - apply valid_params_spec in Hv as [-> | [-> | [-> | ->]]]; eauto 6.
  - left. by intros ? [= <-].
Qed.

Lemma integral_skip p :
  (∀ name, named name p → name ∉ valid_params) → integral p.
Proof.
  intros Hn. unfold integral.
  destruct (attr "name" p) as [name|] eqn:E; [|done].
  by rewrite decide_False by (by apply Hn).
Qed.

Lemma integral_named p name :
  named name p → name ∈ valid_params →
  integral p =
  (if decide (name = "dynamiceq") then is_int (text p) else true)
  && is_int (attr "control" p).
Proof. unfold named, integral. intros -> Hv. by rewrite decide_True. Qed.

(** [update_param] returns on an element whose fields [int] accepts,
    and raises [ValueError] on any other. *)
Lemma update_param_integral p w :
  if integral p then ∃ w', update_param p w = (Return tt, w')
  else ∃ w', update_param p w = (Raise ValueError, w').
Proof.
  destruct (name_cases p) as [Hs|[Hn|[Hn|[Hn|Hn]]]].
  - rewrite update_param_skip by done.
    destruct (integral p) eqn:E; [by eauto|].
    by rewrite (Is_true_true_1 _ (integral_skip p Hs)) in E.
  - rewrite (update_param_named _ _ _ Hn), (integral_named _ _ Hn)
      by (apply valid_params_spec; tauto).
    rewrite decide_True by done. unfold bind.
    rewrite assign_value_dynamiceq. unfold is_int at 1.
    destruct (text p) as [t|]; simpl.
    + destruct (int t) as [n|] eqn:E.
      * rewrite bool_decide_eq_true_2 by eauto. simpl.
        pose proof (assign_control_spec "dynamiceq" p
          (set_self (with_dynamiceq (Some (py_bool n))) w)) as Hc.
        destruct (is_int (attr "control" p)); [|by eauto].
        destruct Hc as (w' & -> & _). eauto.
      * rewrite bool_decide_eq_false_2 by (by intros [? ?]). simpl. eauto.
    + pose proof (assign_control_spec "dynamiceq" p
        (set_self (with_dynamiceq None) w)) as Hc.
      destruct (is_int (attr "control" p)); [|by eauto].
      destruct Hc as (w' & -> & _). eauto.
  - rewrite (update_param_named _ _ _ Hn), (integral_named _ _ Hn)
      by (apply valid_params_spec; tauto).
    rewrite decide_False by done. unfold bind.
    destruct (assign_value_reflevoffset p w) as (v & -> & _). simpl.
    pose proof (assign_control_spec "reflevoffset" p
      (set_self (with_reflevoffset v) w)) as Hc.
    destruct (is_int (attr "control" p)); [|by eauto].
    destruct Hc as (w' & -> & _). eauto.
  - rewrite (update_param_named _ _ _ Hn), (integral_named _ _ Hn)
      by (apply valid_params_spec; tauto).
    rewrite decide_False by done. unfold bind.
    destruct (assign_value_dynamicvol p w) as (v & ->). simpl.
    pose proof (assign_control_spec "dynamicvol" p
      (set_self (with_dynamicvol v) w)) as Hc.
    destruct (is_int (attr "control" p)); [|by eauto].
    destruct Hc as (w' & -> & _). eauto.
  - rewrite (update_param_named _ _ _ Hn), (integral_named _ _ Hn)
      by (apply valid_params_spec; tauto).
    rewrite decide_False by done. unfold bind.
    destruct (assign_value_multeq p w) as (v & ->). simpl.
    pose proof (assign_control_spec "multeq" p
      (set_self (with_multeq v) w)) as Hc.
    destruct (is_int (attr "control" p)); [|by eauto].
    destruct Hc as (w' & -> & _). eauto.
Qed.

Lemma assign_control_keeps name p w r w' :
  assign_control name p w = (r, w') →
  dynamiceq (self w') = dynamiceq (self w) ∧
  reflevoffset (self w') = reflevoffset (self w).
Proof.
  pose proof (assign_control_spec name p w) as Hc.
  destruct (is_int (attr "control" p)).
  - destruct Hc as (w1 & -> & ? & ?). by intros [= _ <-].
  - rewrite Hc. by intros [= _ <-].
Qed.

Ltac step_named Hn :=
  rewrite (update_param_named _ _ _ Hn) by (apply valid_params_spec; tauto);
  unfold bind.

(** Only a [dynamiceq] element writes [dynamiceq]. *)
Lemma update_param_keeps_dynamiceq p w r w' :
  ¬ named "dynamiceq" p → update_param p w = (r, w') →
  dynamiceq (self w') = dynamiceq (self w).
Proof.
  intros Hno. destruct (name_cases p) as [Hs|[Hn|[Hn|[Hn|Hn]]]].
  - rewrite update_param_skip by done. by intros [= _ <-].
  - done.
  - step_named Hn. destruct (assign_value_reflevoffset p w) as (v & -> & _).
    by intros [-> _]%assign_control_keeps.
  - step_named Hn. destruct (assign_value_dynamicvol p w) as (v & ->).
    by intros [-> _]%assign_control_keeps.
  - step_named Hn. destruct (assign_value_multeq p w) as (v & ->).
    by intros [-> _]%assign_control_keeps.
Qed.

(** Only a [reflevoffset] element writes [reflevoffset]. *)
Lemma update_param_keeps_reflevoffset p w r w' :
  ¬ named "reflevoffset" p → update_param p w = (r, w') →
  reflevoffset (self w') = reflevoffset (self w).
Proof.
  intros Hno. destruct (name_cases p) as [Hs|[Hn|[Hn|[Hn|Hn]]]].
  - rewrite update_param_skip by done. by intros [= _ <-].
  - step_named Hn. rewrite assign_value_dynamiceq.
    destruct (text p) as [t|]; [destruct (int t) as [n|]|].
    + by intros [_ ->]%assign_control_keeps.
    + by intros [= _ <-].
    + by intros [_ ->]%assign_control_keeps.
  - done.
  - step_named Hn. destruct (assign_value_dynamicvol p w) as (v & ->).
    by intros [_ ->]%assign_control_keeps.
  - step_named Hn. destruct (assign_value_multeq p w) as (v & ->).
    by intros [_ ->]%assign_control_keeps.
Qed.

(** A [dynamiceq] element with a text [int] reads leaves its truth value
    in [dynamiceq], however the step ends. *)
Lemma update_param_dynamiceq p w t n r w' :
  named "dynamiceq" p → text p = Some t → int t = Some n →
  update_param p w = (r, w') →
  dynamiceq (self w') = Some (py_bool n).
Proof.
  intros Hn Ht Hp. step_named Hn. rewrite assign_value_dynamiceq, Ht, Hp.
  by intros [-> _]%assign_control_keeps.
Qed.

(** A [reflevoffset] element keeps [dynamiceq] and, when that is
    [False], writes [False]. *)
Lemma update_param_reflevoffset p w r w' :
  named "reflevoffset" p → update_param p w = (r, w') →
  dynamiceq (self w') = dynamiceq (self w) ∧
  (dynamiceq (self w) = Some false → reflevoffset (self w') = PBool false).
Proof.
  intros Hn. step_named Hn.
  destruct (assign_value_reflevoffset p w) as (v & -> & Hv).
  intros [-> ->]%assign_control_keeps. split; [done|]. apply Hv.
Qed.

End Param.

(** ** The loop and [update] *)

Section Loop.

Context {device : Type} `{!Receiver device} `{!Builtins}.
Implicit Types (w : world device) (p : Element) (ps qs : list Element).

Lemma for_each_app ps qs w :
  for_each (ps ++ qs) w = bind (for_each ps) (λ _, for_each qs) w.
Proof.
  revert w. induction ps as [|p ps IH]; intros w; simpl; [done|].
  unfold bind in *. destruct (update_param p w) as [[[]|e] w1]; [|done].
  apply IH.
Qed.

(** The loop goes through a list of elements whose fields [int]
    accepts. *)
Lemma for_each_integral ps w :
  Forall integral ps → ∃ w', for_each ps w = (Return tt, w').
Proof.
  intros Hps. revert w. induction Hps as [|p ps Hp _ IH]; intros w; simpl.
  - by eexists.
  - pose proof (update_param_integral p w) as Hu.
    destruct (integral p); [|done]. destruct Hu as (w1 & Hu).
    unfold bind. rewrite Hu. apply IH.
Qed.


Lemma for_each_keeps_dynamiceq ps w r w' :
  Forall (λ p, ¬ named "dynamiceq" p) ps → for_each ps w = (r, w') →
  dynamiceq (self w') = dynamiceq (self w).
Proof.
  intros Hps. revert w.
  induction Hps as [|p ps Hp _ IH]; intros w; simpl.
  - by intros [= _ <-].
  - unfold bind. destruct (update_param p w) as [[[]|e] w1] eqn:Hu.
    + intros ->%IH. by eapply update_param_keeps_dynamiceq.
    + intros [= _ <-]. by eapply update_param_keeps_dynamiceq.
Qed.

Lemma for_each_keeps_reflevoffset ps w r w' :
  Forall (λ p, ¬ named "reflevoffset" p) ps → for_each ps w = (r, w') →
  reflevoffset (self w') = reflevoffset (self w).
Proof.
  intros Hps. revert w.
  induction Hps as [|p ps Hp _ IH]; intros w; simpl.
  - by intros [= _ <-].
  - unfold bind. destruct (update_param p w) as [[[]|e] w1] eqn:Hu.
    + intros ->%IH. by eapply update_param_keeps_reflevoffset.
    + intros [= _ <-]. by eapply update_param_keeps_reflevoffset.
Qed.

Lemma update_listed w ps :
  listed w = Some ps →
  update w =
  bind (for_each ps) (λ _, ret true) (posted_to w get_command).
Proof.
  unfold listed, update. intros Hl. unfold bind at 1.
  rewrite send_command_posted_to.
  destruct (answer w get_command) as [root|] eqn:Ha; [|done].
  rewrite (replied_answer _ _ _ Ha).
  destruct (find ["cmd"; "list"] root) as [params|]; [|done].
  by injection Hl as <-.
Qed.

(** Without a list, [update] returns [False], unless the parser raised
    on the answer. *)
Lemma update_not_listed w :
  listed w = None →
  update w =
  (match refused w get_command with
   | Some e => Raise e
   | None => Return false
   end,
   posted_to w get_command).
Proof.
  unfold listed, update. intros Hl. unfold bind at 1.
  rewrite send_command_posted_to. unfold replied.
  destruct (refused w get_command) as [e|]; [done|].
  destruct (answer w get_command) as [root|]; [|done].
  by destruct (find ["cmd"; "list"] root) as [params|].
Qed.

End Loop.

(** ** Decimal numerals to [int] on ASCII text *)

Section Numerals.

Implicit Types (d acc : Z) (ds : list Z).

Lemma digit_cases d :
  0 ≤ d ≤ 9 →
  d = 0 ∨ d = 1 ∨ d = 2 ∨ d = 3 ∨ d = 4 ∨
  d = 5 ∨ d = 6 ∨ d = 7 ∨ d = 8 ∨ d = 9.
Proof. lia. Qed.

Lemma char_digit d :
  0 ≤ d ≤ 9 →
  AsciiInt.digit (Decimal.char d) = Some d ∧
  AsciiInt.is_underscore (Decimal.char d) = false ∧
  AsciiInt.is_space (Decimal.char d) = false ∧
  Decimal.char d ≠ "+"%char ∧ Decimal.char d ≠ "-"%char.
Proof.
  intros Hd.
  destruct (digit_cases d Hd) as [->|[->|[->|[->|[->|[->|[->|[->|[->| ->]]]]]]]]];
    by vm_compute.
Qed.

Lemma lstrip_numeral ds :
  Forall (λ d, 0 ≤ d ≤ 9) ds →
  AsciiInt.lstrip (Decimal.char <$> ds) = Decimal.char <$> ds.
Proof.
  intros [|d ds' Hd _]; [done|]. simpl.
  destruct (char_digit d Hd) as (_ & _ & -> & _). done.
Qed.

Lemma strip_numeral ds :
  Forall (λ d, 0 ≤ d ≤ 9) ds →
  AsciiInt.strip (Decimal.char <$> ds) = Decimal.char <$> ds.
Proof.
  intros Hds. unfold AsciiInt.strip.
  rewrite lstrip_numeral by done. rewrite <- fmap_reverse.
  rewrite lstrip_numeral by (by apply Forall_reverse).
  by rewrite fmap_reverse, reverse_involutive.
Qed.

Lemma digits_numeral ds acc after_digit :
  Forall (λ d, 0 ≤ d ≤ 9) ds → ds ≠ [] ∨ after_digit = true →
  AsciiInt.digits acc after_digit (Decimal.char <$> ds) =
  Some (foldl (λ acc d, 10 * acc + d) acc ds).
Proof.
  intros Hds. revert acc after_digit.
  induction Hds as [|d ds Hd _ IH]; intros acc after_digit Hne; simpl.
  - by destruct Hne as [?| ->].
  - destruct (char_digit d Hd) as (-> & -> & _). apply IH. by right.
Qed.

Lemma digit_count_numeral ds :
  Forall (λ d, 0 ≤ d ≤ 9) ds →
  AsciiInt.digit_count (Decimal.char <$> ds) = length ds.
Proof.
  unfold AsciiInt.digit_count.
  induction 1 as [|d ds Hd _ IH]; [done|]. rewrite fmap_cons, filter_cons.
  destruct (char_digit d Hd) as (Hdig & _).
  rewrite decide_True by (by rewrite Hdig). simpl. by rewrite IH.
Qed.

(** Within the limit of digits, [int] on ASCII text reads a decimal
    numeral as its value. *)
Lemma parse_numeral ds :
  Decimal.digits ds → (length ds ≤ AsciiInt.max_str_digits)%nat →
  AsciiInt.parse (Decimal.numeral ds) = Some (Decimal.value ds).
Proof.
  intros [Hne Hds] Hlen.
  unfold AsciiInt.parse, Decimal.numeral, Decimal.value.
  rewrite list_ascii_of_string_of_list_ascii, strip_numeral by done.
  rewrite digit_count_numeral, decide_True by done.
  destruct ds as [|d ds]; [done|]. rewrite fmap_cons.
  assert (AsciiInt.signed (Decimal.char d :: (Decimal.char <$> ds)) =
          AsciiInt.digits 0 false (Decimal.char d :: (Decimal.char <$> ds)))
    as ->.
  { inversion Hds as [|? ? Hd _]; subst.
    destruct (digit_cases d Hd) as [->|[->|[->|[->|[->|[->|[->|[->|[->| ->]]]]]]]]];
      done. }
  rewrite <- fmap_cons. apply digits_numeral; [done|by left].
Qed.

End Numerals.

(** ** The setters *)

Section Setters.

Context {device : Type} `{!Receiver device} `{!Builtins}.
Implicit Types (w : world device) (setting : pyval).

Lemma py_get_set m key : py_get (swapped_pairs m) key = Raise AttributeError.
Proof. done. Qed.

Lemma set_multieq_raises setting w :
  set_multieq setting w = (Raise AttributeError, w).
Proof.
  unfold set_multieq, MULTI_EQ_MAP_LABELS, bind, lift.
  by rewrite py_get_set.
Qed.

Lemma set_dynamicvol_raises setting w :
  set_dynamicvol setting w = (Raise AttributeError, w).
Proof.
  unfold set_dynamicvol, DYNAMIC_VOLUME_MAP_LABELS, bind, lift.
  by rewrite py_get_set.
Qed.

Lemma set_reflevoffset_raises setting w :
  dynamiceq (self w) = Some true →
  set_reflevoffset setting w = (Raise AttributeError, w).
Proof.
  intros Hon.
  unfold set_reflevoffset, REF_LVL_OFFSET_MAP_LABELS, bind, lift, getself.
  rewrite decide_True by done. by rewrite py_get_set.
Qed.

Lemma set_reflevoffset_guard setting w :
  dynamiceq (self w) ≠ Some true →
  set_reflevoffset setting w = (Return tt, w).
Proof.
  intros Hoff. unfold set_reflevoffset, bind, getself.
  by rewrite decide_False.
Qed.

(** Turning DynamicEQ on or off writes at most [dynamiceq], and
    returns unless the parser raised on the answer. *)
Lemma dynamiceq_on_spec w :
  ∃ w', dynamiceq_on w =
          (match refused w (set_command "dynamiceq" (PInt 1)) with
           | Some e => Raise e
           | None => Return tt
           end, w') ∧
        (self w' = self w ∨ self w' = with_dynamiceq (Some true) (self w)).
Proof.
  unfold dynamiceq_on, bind. rewrite set_audyssey_eq.
  destruct (refused w _) as [e|].
  - eexists. split; [done|]. rewrite self_posted_to. auto.
  - match goal with |- context [if ?b then _ else _] => destruct b end;
      eexists; (split; [done|]); simpl; rewrite self_posted_to; auto.
Qed.

Lemma dynamiceq_off_spec w :
  ∃ w', dynamiceq_off w =
          (match refused w (set_command "dynamiceq" (PInt 0)) with
           | Some e => Raise e
           | None => Return tt
           end, w') ∧
        (self w' = self w ∨ self w' = with_dynamiceq (Some false) (self w)).
Proof.
  unfold dynamiceq_off, bind. rewrite set_audyssey_eq.
  destruct (refused w _) as [e|].
  - eexists. split; [done|]. rewrite self_posted_to. auto.
  - match goal with |- context [if ?b then _ else _] => destruct b end;
      eexists; (split; [done|]); simpl; rewrite self_posted_to; auto.
Qed.

End Setters.

(** ** What the specification says of [_set_audyssey] and of the guards *)

Section Answers.

Context {device : Type} `{!Receiver device} `{!Builtins}.
Implicit Types (w : world device) (setting : pyval).


(** C5. When [send_command] comes back with [None], or with a
    document without a [cmd/list] node, [update] returns [False] and
    the eight attributes are what they were. *)
Theorem update_without_list w :
  ((send_command get_command w).1 = Return None ∨
   ∃ root, (send_command get_command w).1 = Return (Some root) ∧
           lacks_cmd_list root) →
  ∃ w', update w = (Return false, w') ∧ self w' = self w.
Proof.
  rewrite send_command_posted_to. simpl. intros Hno.
  assert (refused w get_command = None ∧ listed w = None) as [Hr Hl].
  { unfold replied, listed in *.
    destruct (refused w get_command) as [e|]; [by destruct Hno as [?|(? & ? & _)]|].
    split; [done|].
    destruct Hno as [[= ->] | (root & [= ->] & Hl)]; [done|].
    apply find_cmd_list_None in Hl. by rewrite Hl. }
  rewrite (update_not_listed _ Hl), Hr.
  eexists. split; [done|]. apply self_posted_to.
Qed.

(** C6. While [dynamiceq] is not [True], [set_reflevoffset] returns
    in the world it was called in: nothing is posted and no attribute
    changes, whatever the label. *)
Theorem set_reflevoffset_noop setting w :
  dynamiceq (self w) ≠ Some true →
  set_reflevoffset setting w = (Return tt, w).
Proof. apply set_reflevoffset_guard. Qed.

End Answers.

Lemma update_without_list_witness :
  let w := Script.fresh [Script.rx_cmd "OK"] in
  ((send_command get_command w).1 = Return None ∨
   ∃ root, (send_command get_command w).1 = Return (Some root) ∧
           lacks_cmd_list root) ∧
  ∃ w', update w = (Return false, w') ∧ self w' = self w.
Proof.
  intros w.
  assert ((send_command get_command w).1 = Return None ∨
          ∃ root, (send_command get_command w).1 = Return (Some root) ∧
                  lacks_cmd_list root) as Hno.
  { right. eexists. split; [reflexivity|].
    apply find_cmd_list_None. reflexivity. }
  split; [exact Hno|]. exact (update_without_list w Hno).
Defined.


Lemma set_reflevoffset_noop_witness :
  let w := Script.fresh [Script.rx_cmd "OK"] in
  dynamiceq (self w) ≠ Some true ∧
  set_reflevoffset (PStr "+5dB") w = (Return tt, w).
Proof.
  intros w.
  assert (dynamiceq (self w) ≠ Some true) as Hoff by discriminate.
  split; [exact Hoff|]. exact (set_reflevoffset_noop (PStr "+5dB") w Hoff).
Defined.

(** ** A label the reverse table does not hold *)

(** C7. With a label that none of the tables holds, [set_multieq] does
    not come to post anything: looking the label up in a set of pairs
    raises [AttributeError], the script of the receiver is untouched and
    no attribute changes.  The same holds of [set_dynamicvol], and of
    [set_reflevoffset] once [dynamiceq] is [True]. *)
Theorem set_unknown_label_raises :
  let w := Script.fresh [Script.rx_cmd "FAIL"] in
  let on := set_self (with_dynamiceq (Some true)) w in
  set_multieq (PStr "Bogus") w = (Raise AttributeError, w) ∧
  set_dynamicvol (PStr "Bogus") w = (Raise AttributeError, w) ∧
  set_reflevoffset (PStr "Bogus") on = (Raise AttributeError, on) ∧
  posted w = [] ∧ posted on = [].
Proof.
  intros w on.
  split; [apply set_multieq_raises|].
  split; [apply set_dynamicvol_raises|].
  split; [by apply set_reflevoffset_raises|].
  by split.
Qed.

(** ** [update] on answers with a list *)

Section Update.

Context {device : Type} `{!Receiver device} `{!Builtins}.
Implicit Types (w : world device) (p : Element) (ps qs : list Element).

(** C8. From the state [__init__] leaves, an [update] over the four
    elements [multeq=3], [dynamiceq=1], [reflevoffset=2],
    [dynamicvol=0], each with [control="1"], returns [True] with
    [multeq] "Reference", [dynamiceq] [True], [reflevoffset] "+10dB",
    [dynamicvol] "Off" and the four flags [True], [int] reading "1" as
    1. *)
Theorem update_example w :
  int "1" = Some 1 →
  self w = init →
  listed w =
    Some [Script.param "multeq" "3" [("control", "1")];
          Script.param "dynamiceq" "1" [("control", "1")];
          Script.param "reflevoffset" "2" [("control", "1")];
          Script.param "dynamicvol" "0" [("control", "1")]] →
  ∃ w', update w = (Return true, w') ∧
        self w' =
        {| dynamiceq := Some true; dynamiceq_control := Some true;
           reflevoffset := PStr "+10dB"; reflevoffset_control := Some true;
           dynamicvol := PStr "Off"; dynamicvol_control := Some true;
           multeq := PStr "Reference"; multeq_control := Some true |}.
Proof.
  intros Hone Hinit Hl. rewrite (update_listed _ _ Hl).
  pose proof (self_posted_to w get_command) as Hself. rewrite Hinit in Hself.
  destruct (posted_to w get_command) as [a d sent lines].
  simpl in Hself. subst a.
  vm_compute in Hone. repeat (vm_compute; rewrite ?Hone). by eexists.
Qed.

End Update.

Lemma update_example_witness :
  let w :=
    Script.fresh
      [Script.rx_list
         [Script.param "multeq" "3" [("control", "1")];
          Script.param "dynamiceq" "1" [("control", "1")];
          Script.param "reflevoffset" "2" [("control", "1")];
          Script.param "dynamicvol" "0" [("control", "1")]]] in
  ∃ w', update w = (Return true, w') ∧
        multeq (self w') = PStr "Reference" ∧
        dynamiceq (self w') = Some true ∧
        reflevoffset (self w') = PStr "+10dB" ∧
        dynamicvol (self w') = PStr "Off" ∧
        multeq_control (self w') = Some true ∧
        dynamiceq_control (self w') = Some true ∧
        reflevoffset_control (self w') = Some true ∧
        dynamicvol_control (self w') = Some true.
Proof.
  intros w.
  assert (self w = init) as Hinit by reflexivity.
  assert (listed w =
      Some [Script.param "multeq" "3" [("control", "1")];
            Script.param "dynamiceq" "1" [("control", "1")];
            Script.param "reflevoffset" "2" [("control", "1")];
            Script.param "dynamicvol" "0" [("control", "1")]]) as Hl
    by (vm_compute; reflexivity).
  assert (int "1" = Some 1) as Hone by (vm_compute; reflexivity).
  destruct (update_example w Hone Hinit Hl) as (w' & Hu & Hs).
  exists w'. rewrite Hs. repeat split. exact Hu.
Defined.

Section Elements.

Context {device : Type} `{!Receiver device} `{!Builtins}.
Implicit Types (w : world device) (p d r : Element).
Implicit Types (ps qs rs : list Element).

(** The loop over a list with a marked element, when the elements
    before it let the loop through: the element is processed in the
    world they made, and the rest of the loop starts from what it
    leaves, if it returns. *)
Lemma for_each_split ps p qs w res w' :
  Forall integral ps →
  for_each (ps ++ p :: qs) w = (res, w') →
  ∃ w1 res1 w2,
    for_each ps w = (Return tt, w1) ∧
    update_param p w1 = (res1, w2) ∧
    match res1 with
    | Return _ => for_each qs w2 = (res, w')
    | Raise e => res = Raise e ∧ w' = w2
    end.
Proof.
  intros Hps. destruct (for_each_integral ps w Hps) as (w1 & H1).
  rewrite for_each_app. unfold bind at 1. rewrite H1. simpl. unfold bind.
  destruct (update_param p w1) as [[[]|e] w2] eqn:Hu.
  - intros Hq. by exists w1, (Return tt), w2.
  - intros [= <- <-]. by exists w1, (Raise e), w2.
Qed.

Lemma update_outcome w ps res w' :
  listed w = Some ps → update w = (res, w') →
  ∃ res0, for_each ps (posted_to w get_command) = (res0, w').
Proof.
  intros Hl. rewrite (update_listed _ _ Hl). unfold bind, ret.
  destruct (for_each ps _) as [[[]|e] w1]; intros [= _ <-]; eauto.
Qed.

(** C9. When the list holds a [dynamiceq] element whose text [int]
    reads as the integer [n], the elements before it have fields that
    [int] accepts, and no [dynamiceq] element comes after it, then
    after [update], however it ends, [dynamiceq] is a boolean: [True]
    exactly when [n] is not zero. *)
Theorem update_dynamiceq_nonzero w ps p qs t n :
  listed w = Some (ps ++ p :: qs) →
  Forall integral ps →
  named "dynamiceq" p →
  text p = Some t → int t = Some n →
  Forall (λ q, ¬ named "dynamiceq" q) qs →
  ∀ res w', update w = (res, w') →
            dynamiceq (self w') = Some (bool_decide (n ≠ 0)).
Proof.
  intros Hl Hps Hn Ht Hint Hqs res w' Hu.
  destruct (update_outcome _ _ _ _ Hl Hu) as (res0 & Hloop).
  destruct (for_each_split _ _ _ _ _ _ Hps Hloop)
    as (w1 & res1 & w2 & _ & Hp & Hrest).
  assert (dynamiceq (self w2) = Some (py_bool n)) as H2
    by (by eapply update_param_dynamiceq).
  assert (dynamiceq (self w') = dynamiceq (self w2)) as ->.
  { destruct res1.
    - by eapply for_each_keeps_dynamiceq.
    - by destruct Hrest as [_ ->]. }
  rewrite H2. f_equal. unfold py_bool.
  destruct (Z.eqb_spec n 0) as [E|E]; simpl.
  - by rewrite bool_decide_eq_false_2 by (by intros ?).
  - by rewrite bool_decide_eq_true_2.
Qed.


End Elements.

Lemma update_dynamiceq_nonzero_witness :
  let p := Script.param "dynamiceq" "2" [] in
  let w := Script.fresh [Script.rx_list [p]] in
  (listed w = Some ([] ++ p :: []) ∧
   named "dynamiceq" p ∧ text p = Some "2" ∧ int "2" = Some 2) ∧
  ∀ res w', update w = (res, w') → dynamiceq (self w') = Some true.
Proof.
  intros p w.
  assert (listed w = Some ([] ++ p :: [])) as Hl by (vm_compute; reflexivity).
  assert (named "dynamiceq" p) as Hn by (vm_compute; reflexivity).
  assert (text p = Some "2") as Ht by reflexivity.
  assert (int "2" = Some 2) as Hint by (vm_compute; reflexivity).
  assert (Forall integral []) as Hps by constructor.
  assert (Forall (λ q, ¬ named "dynamiceq" q) []) as Hqs by constructor.
  split; [exact (conj Hl (conj Hn (conj Ht Hint)))|].
  exact (update_dynamiceq_nonzero w [] p [] "2" 2 Hl Hps Hn Ht Hint Hqs).
Defined.

(** Against C9 as it is written: a decimal numeral longer than the
    limit of digits is refused by [int], so [update] raises
    [ValueError] and [dynamiceq] is left as it was, no boolean. *)
Lemma update_long_numeral_raises :
  let ds := replicate 4301 1 in
  let p := Script.param "dynamiceq" (Decimal.numeral ds) [] in
  let w := Script.fresh [Script.rx_list [p]] in
  Decimal.digits ds ∧ named "dynamiceq" p ∧
  text p = Some (Decimal.numeral ds) ∧
  ∃ w', update w = (Raise ValueError, w') ∧ dynamiceq (self w') = None.
Proof.
  intros ds p w. split.
  { split; [done|]. apply Forall_forall. intros d Hd.
    apply elem_of_replicate in Hd as [-> _]. lia. }
  split; [by vm_compute|]. split; [done|].
  vm_compute. by eexists.
Qed.


(** ** DynamicEQ off and the reference level offset *)

Section Offset.

Context {device : Type} `{!Receiver device} `{!Builtins}.
Implicit Types (w : world device) (p d r : Element).
Implicit Types (ps qs rs : list Element).

Lemma update_param_integral_returns p w :
  integral p → ∃ w', update_param p w = (Return tt, w').
Proof.
  intros Hp. pose proof (update_param_integral p w) as Hu.
  by destruct (integral p).
Qed.

(** C3. When the list holds a [dynamiceq] element with the text "0"
    and, after it, a [reflevoffset] element, with no [dynamiceq]
    element between the two, no [reflevoffset] element after the
    second, and fields that [int] accepts up to the second, then
    after [update], however it ends, [reflevoffset] is [False],
    whatever code the [reflevoffset] element carries; [int] reads "0"
    as 0. *)
Theorem update_dynamiceq_zero_forces_offset w ps d qs r rs :
  int "0" = Some 0 →
  listed w = Some (ps ++ d :: qs ++ r :: rs) →
  Forall integral (ps ++ d :: qs) →
  named "dynamiceq" d → text d = Some "0" →
  Forall (λ q, ¬ named "dynamiceq" q) qs →
  named "reflevoffset" r →
  Forall (λ q, ¬ named "reflevoffset" q) rs →
  ∀ res w', update w = (res, w') → reflevoffset (self w') = PBool false.
Proof.
  intros Hzero Hl Hint Hd Ht Hqs Hr Hrs res w' Hu.
  apply Forall_app in Hint as [Hps Hint].
  apply Forall_cons in Hint as [Hdi Hqi].
  destruct (update_outcome _ _ _ _ Hl Hu) as (res0 & Hloop).
  destruct (for_each_split _ _ _ _ _ _ Hps Hloop)
    as (w1 & res1 & w2 & _ & Hstep & Hrest).
  destruct (update_param_integral_returns d w1 Hdi) as (w2' & Hret).
  rewrite Hret in Hstep. injection Hstep as <- <-.
  assert (dynamiceq (self w2') = Some false) as Hoff.
  { by eapply (update_param_dynamiceq d w1 "0" 0). }
  destruct (for_each_split _ _ _ _ _ _ Hqi Hrest)
    as (w3 & res3 & w4 & Hq & Hstep & Hrest').
  apply for_each_keeps_dynamiceq in Hq; [|done]. rewrite Hoff in Hq.
  apply update_param_reflevoffset in Hstep as [_ Hfalse]; [|done].
  specialize (Hfalse Hq).
  destruct res3.
  - apply for_each_keeps_reflevoffset in Hrest'; [|done]. congruence.
  - destruct Hrest' as [_ ->]. done.
Qed.

(** The loop keeps the rule when every [dynamiceq] element is
    followed by a [reflevoffset] element, and sets it up when the
    list has a [reflevoffset] element at all. *)
Lemma for_each_offset_rule ps w w' :
  offset_follows ps →
  offset_rule (self w) ∨ Exists (named "reflevoffset") ps →
  for_each ps w = (Return tt, w') →
  offset_rule (self w').
Proof.
  revert w. induction ps as [|p ps IH]; intros w Hfol Hpre; simpl.
  - intros [= <-]. destruct Hpre as [?|Hex]; [done|]. by inversion Hex.
  - unfold bind. destruct (update_param p w) as [[[]|e] w1] eqn:Hu; [|done].
    apply IH.
    { intros pre d post -> Hd. by apply (Hfol (p :: pre) d post). }
    destruct (decide (named "dynamiceq" p)) as [Hd|Hd].
    { right. by apply (Hfol [] p ps). }
    destruct (decide (named "reflevoffset" p)) as [Hr|Hr].
    { left. apply update_param_reflevoffset in Hu as [Heq Hfalse]; [|done].
      intros Hoff. apply Hfalse. by rewrite <- Heq. }
    destruct Hpre as [Hrule|Hex].
    + left. unfold offset_rule.
      rewrite (update_param_keeps_dynamiceq _ _ _ _ Hd Hu).
      by rewrite (update_param_keeps_reflevoffset _ _ _ _ Hr Hu).
    + right. by inversion Hex.
Qed.

Lemma update_offset_rule w b w' :
  (∀ ps, listed w = Some ps → offset_follows ps) →
  offset_rule (self w) →
  update w = (Return b, w') →
  offset_rule (self w').
Proof.
  intros Hfol Hrule. destruct (listed w) as [ps|] eqn:Hl.
  - rewrite (update_listed _ _ Hl). unfold bind, ret.
    destruct (for_each ps _) as [[[]|e] w1] eqn:Hloop; [|done].
    intros [= _ <-]. eapply for_each_offset_rule; [by apply Hfol| |done].
    left. by rewrite self_posted_to.
  - rewrite (update_not_listed _ Hl). intros [= _ <-].
    by rewrite self_posted_to.
Qed.

(** C2. In every world a freshly built object comes to through calls
    that return, none of them [dynamiceq_off] and every [update]
    among them over a list with a [reflevoffset] element after each
    [dynamiceq] element, [reflevoffset] is [False] whenever
    [dynamiceq] is [False]. *)
Theorem offset_rule_reachable w :
  reachable keeps_rule w → offset_rule (self w).
Proof.
  induction 1 as [d|w o v w' _ IH [Hoff Hupd] Hcall]; [done|].
  destruct o as [| | |setting|setting|setting]; simpl in Hcall;
    unfold bind, ret in Hcall.
  - destruct (update w) as [[b|e] w1] eqn:Hu; [|done].
    injection Hcall as _ <-. eapply update_offset_rule; [|done..].
    by apply Hupd.
  - destruct (dynamiceq_on_spec w) as (w1 & Hon & Hself).
    rewrite Hon in Hcall. destruct (refused w _); [done|].
    injection Hcall as _ <-.
    destruct Hself as [-> | ->]; [done|]. by intros ?.
  - done.
  - by rewrite set_multieq_raises in Hcall.
  - destruct (decide (dynamiceq (self w) = Some true)) as [Hon|Hon].
    + by rewrite set_reflevoffset_raises in Hcall.
    + rewrite set_reflevoffset_guard in Hcall by done.
      by injection Hcall as _ <-.
  - by rewrite set_dynamicvol_raises in Hcall.
Qed.

End Offset.

(** Against C3 as it is written: a [reflevoffset] element that comes
    before the [dynamiceq] element is read against the old
    [dynamiceq]: from the fresh object the label stays, and
    [dynamiceq] ends [False]. *)
Lemma update_offset_before_dynamiceq :
  let r := Script.param "reflevoffset" "2" [] in
  let d := Script.param "dynamiceq" "0" [] in
  let w := Script.fresh [Script.rx_list [r; d]] in
  listed w = Some [r; d] ∧
  named "dynamiceq" d ∧ text d = Some "0" ∧ named "reflevoffset" r ∧
  ∃ w', update w = (Return true, w') ∧
        dynamiceq (self w') = Some false ∧
        reflevoffset (self w') = PStr "+10dB" ∧
        reflevoffset (self w') ≠ PBool false.
Proof.
  intros r d w. repeat split; try (vm_compute; reflexivity).
  vm_compute. eexists. repeat split. discriminate.
Qed.

Lemma update_dynamiceq_zero_forces_offset_witness :
  let d := Script.param "dynamiceq" "0" [("control", "1")] in
  let r := Script.param "reflevoffset" "2" [("control", "1")] in
  let w := Script.fresh [Script.rx_list [d; r]] in
  (int "0" = Some 0 ∧
   listed w = Some ([] ++ d :: [] ++ r :: []) ∧
   Forall integral ([] ++ d :: []) ∧
   named "dynamiceq" d ∧ text d = Some "0" ∧ named "reflevoffset" r) ∧
  ∀ res w', update w = (res, w') → reflevoffset (self w') = PBool false.
Proof.
  intros d r w.
  assert (int "0" = Some 0) as Hzero by (vm_compute; reflexivity).
  assert (listed w = Some ([] ++ d :: [] ++ r :: [])) as Hl
    by (vm_compute; reflexivity).
  assert (Forall integral ([] ++ d :: [])) as Hint by (repeat constructor).
  assert (named "dynamiceq" d) as Hd by (vm_compute; reflexivity).
  assert (text d = Some "0") as Ht by reflexivity.
  assert (named "reflevoffset" r) as Hr by (vm_compute; reflexivity).
  assert (Forall (λ q, ¬ named "dynamiceq" q) []) as Hqs by constructor.
  assert (Forall (λ q, ¬ named "reflevoffset" q) []) as Hrs by constructor.
  split; [exact (conj Hzero (conj Hl (conj Hint (conj Hd (conj Ht Hr)))))|].
  exact (update_dynamiceq_zero_forces_offset w [] d [] r [] Hzero Hl Hint Hd
           Ht Hqs Hr Hrs).
Defined.

(** Against C2 as it is written: after an [update] that reads DynamicEQ
    on and an offset of "+10dB", a [dynamiceq_off] the receiver confirms leaves [dynamiceq] [False]
    beside the label. *)
Lemma dynamiceq_off_keeps_label :
  let w0 :=
    Script.fresh
      [Script.rx_list [Script.param "dynamiceq" "1" [];
                       Script.param "reflevoffset" "2" []];
       Script.rx_cmd "OK"] in
  ∃ w1 w2,
    call Update w0 = (Return (PBool true), w1) ∧
    call DynamicEqOff w1 = (Return PNone, w2) ∧
    reachable (λ _ _, True) w2 ∧
    dynamiceq (self w2) = Some false ∧
    reflevoffset (self w2) = PStr "+10dB" ∧
    ¬ offset_rule (self w2).
Proof.
  intros w0.
  destruct (call Update w0) as [res1 w1] eqn:H1.
  destruct (call DynamicEqOff w1) as [res2 w2] eqn:H2.
  assert (res1 = Return (PBool true)) as ->
    by (apply (f_equal fst) in H1; vm_compute in H1; congruence).
  assert (res2 = Return PNone ∧ dynamiceq (self w2) = Some false ∧
          reflevoffset (self w2) = PStr "+10dB") as (-> & Hd & Hr).
  { apply (f_equal snd) in H1. simpl in H1. subst w1.
    apply (f_equal (λ x, (x.1, dynamiceq (self x.2), reflevoffset (self x.2))))
      in H2.
    vm_compute in H2. injection H2 as E1 E2 E3.
    repeat split; symmetry; [exact E1|exact E2|exact E3]. }
  exists w1, w2.
  split; [done|]. split; [done|]. split; [|split; [done|split; [done|]]].
  - eapply reachable_call; [|done|exact H2].
    eapply reachable_call; [|done|exact H1]. constructor.
  - intros Hrule. specialize (Hrule Hd). congruence.
Qed.

Lemma offset_rule_reachable_witness :
  let d := Script.param "dynamiceq" "0" [] in
  let r := Script.param "reflevoffset" "2" [] in
  let w0 := Script.fresh [Script.rx_list [d; r]] in
  ∃ w, call Update w0 = (Return (PBool true), w) ∧
       reachable keeps_rule w ∧ dynamiceq (self w) = Some false ∧
       offset_rule (self w).
Proof.
  intros d r w0.
  destruct (call Update w0) as [res w] eqn:Hc.
  assert (res = Return (PBool true) ∧ dynamiceq (self w) = Some false)
    as [-> Hd].
  { apply (f_equal (λ x, (x.1, dynamiceq (self x.2)))) in Hc.
    vm_compute in Hc. injection Hc as E1 E2.
    split; symmetry; [exact E1|exact E2]. }
  assert (reachable keeps_rule w) as Hreach.
  { eapply reachable_call; [constructor| |exact Hc].
    split; [done|]. intros _ ps Hl.
    assert (ps = [d; r]) as ->
      by (vm_compute in Hl; injection Hl as <-; reflexivity).
    intros pre d' post Hsplit Hnamed.
    destruct pre as [|x [|y [|z pre]]]; simplify_eq/=.
    - by repeat constructor.
    - by vm_compute in Hnamed. }
  exists w. split; [done|]. split; [done|]. split; [done|].
  exact (offset_rule_reachable w Hreach).
Defined.

(** ** Which calls raise *)

Section Raising.

Context {device : Type} `{!Receiver device} `{!Builtins}.
Implicit Types (w : world device).

(** C1. [dynamiceq_on], [dynamiceq_off] and [update] on an answer
    that is not one the parser raises on, [update] moreover when the
    list it goes through, if any, gives [int] only texts it accepts,
    and [set_reflevoffset] while [dynamiceq] is not [True], raise
    nothing: the call returns [None] or a boolean, whatever else the
    receiver does. *)
Theorem guarded_calls_return o w :
  cannot_raise o w →
  ∃ v w', call o w = (Return v, w') ∧ (v = PNone ∨ ∃ b, v = PBool b).
Proof.
  destruct o as [| | |setting|setting|setting]; simpl; intros Hok;
    unfold bind, ret; try done.
  - destruct Hok as [Hr Hok]. destruct (listed w) as [ps|] eqn:Hl.
    + rewrite (update_listed _ _ Hl). unfold bind, ret.
      destruct (for_each_integral ps (posted_to w get_command) (Hok _ eq_refl))
        as (w1 & ->). eauto 6.
    + rewrite (update_not_listed _ Hl), Hr. eauto 6.
  - destruct (dynamiceq_on_spec w) as (w1 & -> & _). rewrite Hok. eauto.
  - destruct (dynamiceq_off_spec w) as (w1 & -> & _). rewrite Hok. eauto.
  - rewrite set_reflevoffset_guard by done. eauto.
Qed.

End Raising.

(** Against C1 as it is written: [update] raises [ValueError] to its
    caller on a [dynamiceq] element whose text [int] refuses. *)
Lemma update_raises_ValueError :
  let w := Script.fresh [Script.rx_list [Script.param "dynamiceq" "abc" []]] in
  ∃ w', call Update w = (Raise ValueError, w') ∧
        ¬ ∃ v w'', call Update w = (Return v, w'').
Proof.
  intros w. destruct (call Update w) as [res w'] eqn:Hc.
  assert (res = Raise ValueError) as ->
    by (apply (f_equal fst) in Hc; vm_compute in Hc; congruence).
  exists w'. split; [done|]. by intros (v & w'' & ?).
Qed.

Lemma guarded_calls_return_witness :
  let w :=
    Script.fresh
      [Script.rx_list [Script.param "dynamiceq" "1" [("control", "0")];
                       Script.param "volume" "abc" [("control", "x")]]] in
  cannot_raise Update w ∧
  ∃ v w', call Update w = (Return v, w') ∧ (v = PNone ∨ ∃ b, v = PBool b).
Proof.
  intros w.
  assert (cannot_raise Update w) as Hok.
  { split; [reflexivity|].
    intros ps Hl. vm_compute in Hl. injection Hl as <-. repeat constructor. }
  split; [exact Hok|]. exact (guarded_calls_return Update w Hok).
Defined.


(** * Further properties of the module *)

(** ** The loop touches the object only *)

Section Frame.

Context {device : Type} `{!Receiver device} `{!Builtins}.
Implicit Types (w : world device) (p : Element) (ps : list Element).
Implicit Types (a : Audyssey).

(** The outcome of one element and the object it leaves depend on the
    object alone; receiver, requests and log lines pass through. *)
Lemma update_param_frame p w w0 :
  self w0 = self w →
  update_param p w0 =
  ((update_param p w).1,
   mkWorld (self (update_param p w).2) (receiver w0) (posted w0) (logged w0)).
Proof.
  destruct w as [a d s l], w0 as [a0 d0 s0 l0]. simpl. intros ->.
  unfold update_param. destruct (attr "name" p) as [name|]; [|done].
  destruct (decide (name ∈ valid_params)); [|done].
  unfold assign_value, assign_control, MULTI_EQ_MAP, REF_LVL_OFFSET_MAP,
    DYNAMIC_VOLUME_MAP, py_int.
  rewrite ?py_get_dict. unfold_m. unfold set_self.
  destruct (attr "control" p) as [c|]; [destruct (int c)|];
    destruct (decide (name = "multeq")); try done;
    destruct (decide (name = "dynamiceq"));
    try (destruct (text p) as [t|]; [destruct (int t)|]; done);
    destruct (decide (name = "reflevoffset"));
    try (cbn [self]; destruct (decide (dynamiceq a = Some false)); done);
    destruct (decide (name = "dynamicvol")); done.
Qed.

Lemma for_each_frame ps w w0 :
  self w0 = self w →
  for_each ps w0 =
  ((for_each ps w).1,
   mkWorld (self (for_each ps w).2) (receiver w0) (posted w0) (logged w0)).
Proof.
  revert w w0. induction ps as [|p ps IH]; intros w w0 Hself; simpl.
  - unfold ret. simpl. rewrite <- Hself. by destruct w0.
  - unfold bind. rewrite (update_param_frame p w w0 Hself).
    destruct (update_param p w) as [[[]|e] w1]; simpl; [|done].
    by apply
      (IH w1 (mkWorld (self w1) (receiver w0) (posted w0) (logged w0))).
Qed.

Lemma for_each_world ps w :
  (for_each ps w).2 =
  mkWorld (self (for_each ps w).2) (receiver w) (posted w) (logged w).
Proof. by rewrite (for_each_frame ps w w eq_refl) at 1. Qed.

(** The world [send_command] leaves: the object as it was, the request
    added, the receiver as the post left it, and at most one line
    added to the log, which names the end point and the host. *)
Lemma posted_to_world w doc :
  ∃ lines,
    posted_to w doc =
      mkWorld (self w)
        (send_post_command COMMAND_ENDPOINT doc (receiver w)).2
        (posted w ++ [mkRequest COMMAND_ENDPOINT doc])
        (logged w ++ lines) ∧
    (length lines ≤ 1)%nat ∧
    Forall (λ line,
      args line =
      [COMMAND_ENDPOINT;
       host (send_post_command COMMAND_ENDPOINT doc (receiver w)).2]) lines.
Proof.
  unfold posted_to, send_command. unfold_m.
  destruct (send_post_command _ _ _) as [out d]; simpl.
  destruct out as [| |[[|root| |]|]]; simpl;
    try (exists []; rewrite app_nil_r; repeat split; [simpl; lia|constructor]).
  - eexists [_]. repeat split; [simpl; lia|]. by repeat constructor.
  - eexists [_]. repeat split; [simpl; lia|]. by repeat constructor.
Qed.

End Frame.

(** ** Round trips and log lines *)

Section Traffic.

Context {device : Type} `{!Receiver device} `{!Builtins}.
Implicit Types (w : world device) (ps : list Element).

Lemma update_world w :
  ∃ a, (update w).2 =
       mkWorld a (receiver (posted_to w get_command))
         (posted (posted_to w get_command)) (logged (posted_to w get_command)).
Proof.
  destruct (listed w) as [ps|] eqn:Hl.
  - rewrite (update_listed _ _ Hl). unfold bind, ret.
    pose proof (for_each_world ps (posted_to w get_command)) as Hw.
    destruct (for_each ps _) as [[[]|e] w1]; simpl in *; rewrite Hw; eauto.
  - rewrite (update_not_listed _ Hl). simpl.
    exists (self (posted_to w get_command)). by destruct (posted_to _ _).
Qed.

(** X2. A call of a public method, however it ends, posts at most one
    request, to the end point of the module, and writes at most one
    line to the log; without a post the receiver and the log are as
    they were. *)
Theorem call_posts_at_most_once o w :
  let w' := (call o w).2 in
  (posted w' = posted w ∧ receiver w' = receiver w ∧ logged w' = logged w) ∨
  ∃ doc lines,
    posted w' = posted w ++ [mkRequest COMMAND_ENDPOINT doc] ∧
    receiver w' = (send_post_command COMMAND_ENDPOINT doc (receiver w)).2 ∧
    logged w' = logged w ++ lines ∧ (length lines ≤ 1)%nat.
Proof.
  destruct o as [| | |setting|setting|setting]; cbn [call]; unfold bind, ret;
    cbv zeta.
  - right. destruct (update_world w) as (a & Hw).
    destruct (posted_to_world w get_command) as (lines & Hp & Hlen & _).
    exists get_command, lines. rewrite Hp in Hw. cbn [receiver posted logged] in Hw.
    destruct (update w) as [[b|e] w1]; cbn [snd] in *; subst w1;
      by repeat split.
  - right. unfold dynamiceq_on, bind. rewrite set_audyssey_eq.
    destruct (posted_to_world w (set_command "dynamiceq" (PInt 1)))
      as (lines & Hp & Hlen & _).
    exists (set_command "dynamiceq" (PInt 1)), lines.
    destruct (refused w _); [simpl; rewrite Hp; by repeat split|].
    match goal with |- context [if ?b then _ else _] => destruct b end;
      simpl; rewrite Hp; by repeat split.
  - right. unfold dynamiceq_off, bind. rewrite set_audyssey_eq.
    destruct (posted_to_world w (set_command "dynamiceq" (PInt 0)))
      as (lines & Hp & Hlen & _).
    exists (set_command "dynamiceq" (PInt 0)), lines.
    destruct (refused w _); [simpl; rewrite Hp; by repeat split|].
    match goal with |- context [if ?b then _ else _] => destruct b end;
      simpl; rewrite Hp; by repeat split.
  - left. by rewrite set_multieq_raises.
  - left. destruct (decide (dynamiceq (self w) = Some true)).
    + by rewrite set_reflevoffset_raises.
    + by rewrite set_reflevoffset_guard.
  - left. by rewrite set_dynamicvol_raises.
Qed.

End Traffic.

(** ** Attributes read by name *)

Section Getattr.

Implicit Types (a : Audyssey) (name : string).

Ltac by_names :=
  unfold getattr, getattr_control, setattr_control;
  repeat case_decide; subst; done.

Lemma getattr_with_multeq name v a :
  getattr name (with_multeq v a) =
  if decide (name = "multeq") then v else getattr name a.
Proof. by_names. Qed.

Lemma getattr_with_dynamicvol name v a :
  getattr name (with_dynamicvol v a) =
  if decide (name = "dynamicvol") then v else getattr name a.
Proof. by_names. Qed.

Lemma getattr_with_reflevoffset name v a :
  getattr name (with_reflevoffset v a) =
  if decide (name = "reflevoffset") then v else getattr name a.
Proof. by_names. Qed.

Lemma getattr_with_dynamiceq name v a :
  getattr name (with_dynamiceq v a) =
  if decide (name = "dynamiceq") then from_option PBool PNone v
  else getattr name a.
Proof. by_names. Qed.

Lemma getattr_setattr_control name n v a :
  getattr name (setattr_control n v a) = getattr name a.
Proof. by_names. Qed.

Lemma getattr_control_with name a :
  (∀ v, getattr_control name (with_multeq v a) = getattr_control name a) ∧
  (∀ v, getattr_control name (with_dynamicvol v a) = getattr_control name a) ∧
  (∀ v, getattr_control name (with_reflevoffset v a) = getattr_control name a) ∧
  (∀ v, getattr_control name (with_dynamiceq v a) = getattr_control name a).
Proof. repeat split; intros v; by_names. Qed.

Lemma getattr_control_setattr name n v a :
  n ∈ valid_params →
  getattr_control name (setattr_control n v a) =
  if decide (name = n) then Some v else getattr_control name a.
Proof.
  intros Hn. apply valid_params_spec in Hn as [-> | [-> | [-> | ->]]];
    by_names.
Qed.

End Getattr.

(** ** What an element writes *)

Section Writes.

Context {device : Type} `{!Receiver device} `{!Builtins}.
Implicit Types (w : world device) (p : Element) (ps qs : list Element).
Implicit Types (name : string).

(** The value step writes at most the attribute of its name and no
    flag. *)
Lemma assign_value_writes n p w :
  ∃ f, (assign_value n p w).2 = set_self f w ∧
       (∀ name a, name ≠ n → getattr name (f a) = getattr name a) ∧
       (∀ name a, getattr_control name (f a) = getattr_control name a).
Proof.
  unfold assign_value, MULTI_EQ_MAP, REF_LVL_OFFSET_MAP, DYNAMIC_VOLUME_MAP,
    py_int.
  rewrite ?py_get_dict. unfold_m.
  assert (∃ f, w = set_self f w ∧
       (∀ name a, name ≠ n → getattr name (f a) = getattr name a) ∧
       (∀ name a, getattr_control name (f a) = getattr_control name a)) as Hid.
  { exists id. by destruct w. }
  destruct (decide (n = "multeq")) as [->|?].
  { eexists. split; [done|]. split; intros name a; [intros ?|].
    - by rewrite getattr_with_multeq, decide_False.
    - apply getattr_control_with. }
  destruct (decide (n = "dynamiceq")) as [->|?].
  { destruct (text p) as [t|]; [destruct (int t)|]; [|done|];
      (eexists; split; [done|]; split; intros name a; [intros ?|];
       [by rewrite getattr_with_dynamiceq, decide_False
       |apply getattr_control_with]). }
  destruct (decide (n = "reflevoffset")) as [->|?].
  { destruct (decide (dynamiceq (self w) = Some false));
      (eexists; split; [done|]; split; intros name a; [intros ?|];
       [by rewrite getattr_with_reflevoffset, decide_False
       |apply getattr_control_with]). }
  destruct (decide (n = "dynamicvol")) as [->|?]; [|done].
  eexists. split; [done|]. split; intros name a; [intros ?|].
  - by rewrite getattr_with_dynamicvol, decide_False.
  - apply getattr_control_with.
Qed.

Lemma assign_control_eq n p w :
  assign_control n p w =
  match attr "control" p with
  | Some c =>
      match int c with
      | Some k => (Return tt, set_self (setattr_control n (py_bool k)) w)
      | None => (Raise ValueError, w)
      end
  | None => (Return tt, w)
  end.
Proof.
  unfold assign_control, py_int. unfold_m.
  destruct (attr "control" p) as [c|]; [|done]. by destruct (int c).
Qed.

(** An element writes nothing under another name: neither the
    attribute nor its flag. *)
Lemma update_param_keeps name p w :
  ¬ named name p →
  getattr name (self (update_param p w).2) = getattr name (self w) ∧
  getattr_control name (self (update_param p w).2) =
  getattr_control name (self w).
Proof.
  intros Hno. unfold update_param, named in *.
  destruct (attr "name" p) as [n|]; [|done].
  destruct (decide (n ∈ valid_params)) as [Hv|]; [|done].
  assert (name ≠ n) as Hne by congruence.
  unfold bind. destruct (assign_value_writes n p w) as (f & Hw & Hval & Hctl).
  destruct (assign_value n p w) as [[[]|e] w1]; simpl in Hw; subst w1; simpl.
  - rewrite assign_control_eq.
    destruct (attr "control" p) as [c|]; [destruct (int c)|]; simpl;
      rewrite ?getattr_setattr_control, ?getattr_control_setattr by done;
      rewrite ?decide_False by done; auto.
  - auto.
Qed.

Lemma for_each_keeps name ps w :
  Forall (λ p, ¬ named name p) ps →
  getattr name (self (for_each ps w).2) = getattr name (self w) ∧
  getattr_control name (self (for_each ps w).2) =
  getattr_control name (self w).
Proof.
  intros Hps. revert w. induction Hps as [|p ps Hp _ IH]; intros w; simpl.
  - done.
  - unfold bind. pose proof (update_param_keeps name p w Hp) as [Hv Hc].
    destruct (update_param p w) as [[[]|e] w1]; simpl in *.
    + destruct (IH w1) as [-> ->]. done.
    + done.
Qed.

End Writes.

(** ** What [update] leaves in the attributes *)

Section Refresh.

Context {device : Type} `{!Receiver device} `{!Builtins}.
Implicit Types (w : world device) (p : Element) (ps qs : list Element).
Implicit Types (name : string).

Lemma update_self w :
  self (update w).2 =
  match listed w with
  | Some ps => self (for_each ps (posted_to w get_command)).2
  | None => self w
  end.
Proof.
  destruct (listed w) as [ps|] eqn:Hl.
  - rewrite (update_listed _ _ Hl). unfold bind, ret.
    by destruct (for_each ps _) as [[[]|e] w1].
  - rewrite (update_not_listed _ Hl). apply self_posted_to.
Qed.

(** The loop over a list with a marked element, seen from the object
    it ends with: past elements with fields [int] accepts, the marked element
    runs, and then the rest if the marked element returned. *)
Lemma for_each_marked ps p qs w :
  Forall integral ps →
  ∃ w1, for_each ps w = (Return tt, w1) ∧
        (for_each (ps ++ p :: qs) w).2 =
        match (update_param p w1).1 with
        | Return _ => (for_each qs (update_param p w1).2).2
        | Raise _ => (update_param p w1).2
        end.
Proof.
  intros Hps. destruct (for_each_integral ps w Hps) as (w1 & H1).
  exists w1. split; [done|].
  rewrite for_each_app. unfold bind at 1. rewrite H1. simpl. unfold bind.
  by destruct (update_param p w1) as [[[]|e] w2].
Qed.

(** X3. [update] writes nothing under a name that no element of the
    list carries: the attribute of that name and its [_control] flag
    are after the call what they were before, however the call ends. *)
Theorem update_keeps_unlisted name w :
  (∀ ps, listed w = Some ps → Forall (λ p, ¬ named name p) ps) →
  getattr name (self (update w).2) = getattr name (self w) ∧
  getattr_control name (self (update w).2) = getattr_control name (self w).
Proof.
  intros Hno. rewrite update_self. destruct (listed w) as [ps|]; [|done].
  destruct (for_each_keeps name ps (posted_to w get_command) (Hno _ eq_refl))
    as [-> ->].
  by rewrite self_posted_to.
Qed.

Lemma dict_get_pairs (pairs : list (string * string)) (x : option string) :
  NoDup pairs.*1 →
  (∀ code label, (code, label) ∈ pairs → x = Some code →
     dict_get (list_to_map pairs) (of_text x) = PStr label) ∧
  ((∀ code label, (code, label) ∈ pairs → x ≠ Some code) →
     dict_get (list_to_map pairs) (of_text x) = PNone).
Proof.
  intros Hnd. split.
  - intros code label Hin ->. simpl.
    by rewrite (elem_of_list_to_map_1 pairs code label Hnd Hin).
  - intros Hno. destruct x as [code|]; [|done]. simpl.
    destruct (list_to_map pairs !! code) as [label|] eqn:E; [|done].
    apply elem_of_list_to_map_2 in E. by destruct (Hno code label E).
Qed.

Lemma update_param_label name pairs p w :
  (name, pairs) ∈ [("multeq", MULTI_EQ_PAIRS);
                   ("dynamicvol", DYNAMIC_VOLUME_PAIRS)] →
  named name p →
  getattr name (self (update_param p w).2) =
  dict_get (list_to_map pairs) (of_text (text p)).
Proof.
  intros Hin Hn.
  apply elem_of_cons in Hin as [[= -> ->]|Hin];
    [|apply list_elem_of_singleton in Hin as [= -> ->]];
    rewrite (update_param_named _ _ _ Hn) by (apply valid_params_spec; tauto);
    unfold bind.
  - assert (assign_value "multeq" p w =
            (Return tt,
             set_self (with_multeq
               (dict_get (list_to_map MULTI_EQ_PAIRS) (of_text (text p)))) w))
      as -> by done.
    rewrite assign_control_eq.
    destruct (attr "control" p) as [c|]; [destruct (int c)|];
      simpl; by rewrite ?getattr_setattr_control.
  - assert (assign_value "dynamicvol" p w =
            (Return tt,
             set_self (with_dynamicvol
               (dict_get (list_to_map DYNAMIC_VOLUME_PAIRS) (of_text (text p)))) w))
      as -> by done.
    rewrite assign_control_eq.
    destruct (attr "control" p) as [c|]; [destruct (int c)|];
      simpl; by rewrite ?getattr_setattr_control.
Qed.

(** X4. The last [multeq] element of the list decides [multeq], and
    the last [dynamicvol] element [dynamicvol], when the elements
    before it have fields [int] accepts: a text that is a code of the table
    gives the label of the code, and a text that is no code, or no
    text, gives [None], whatever the attribute held. *)
Theorem update_label name pairs w ps p qs :
  (name, pairs) ∈ [("multeq", MULTI_EQ_PAIRS);
                   ("dynamicvol", DYNAMIC_VOLUME_PAIRS)] →
  listed w = Some (ps ++ p :: qs) →
  Forall integral ps → named name p →
  Forall (λ q, ¬ named name q) qs →
  (∀ code label, (code, label) ∈ pairs → text p = Some code →
     getattr name (self (update w).2) = PStr label) ∧
  ((∀ code label, (code, label) ∈ pairs → text p ≠ Some code) →
     getattr name (self (update w).2) = PNone).
Proof.
  intros Hin Hl Hps Hn Hqs. rewrite update_self, Hl.
  destruct (for_each_marked ps p qs (posted_to w get_command) Hps)
    as (w1 & _ & ->).
  assert (getattr name
            (self match (update_param p w1).1 with
                  | Return _ => (for_each qs (update_param p w1).2).2
                  | Raise _ => (update_param p w1).2
                  end) =
          dict_get (list_to_map pairs) (of_text (text p))) as ->.
  { rewrite <- (update_param_label name pairs p w1 Hin Hn).
    destruct (update_param p w1).1; [|done].
    by destruct (for_each_keeps name qs (update_param p w1).2 Hqs) as [-> _]. }
  apply dict_get_pairs.
  apply elem_of_cons in Hin as [[= -> ->]|Hin];
    [|apply list_elem_of_singleton in Hin as [= -> ->]];
    compute_done.
Qed.

End Refresh.

(** ** Flags, outcomes and elements without a known name *)

Section Outcomes.

Context {device : Type} `{!Receiver device} `{!Builtins}.
Implicit Types (w : world device) (p : Element) (ps qs : list Element).
Implicit Types (name : string).

Lemma update_param_flag name p w c k :
  named name p → name ∈ valid_params → integral p →
  attr "control" p = Some c → int c = Some k →
  (update_param p w).1 = Return tt ∧
  getattr_control name (self (update_param p w).2) = Some (py_bool k).
Proof.
  intros Hn Hv Hp Hc Hk.
  destruct (update_param_integral_returns p w Hp) as (w' & Hret).
  rewrite Hret. split; [done|]. simpl.
  rewrite (update_param_named _ _ _ Hn Hv) in Hret. unfold bind in Hret.
  destruct (assign_value_writes name p w) as (f & Hw & _).
  destruct (assign_value name p w) as [[[]|e] w1]; [|done].
  simpl in Hw. subst w1. rewrite assign_control_eq, Hc, Hk in Hret.
  injection Hret as <-. simpl.
  by rewrite getattr_control_setattr, decide_True.
Qed.

(** X5. The [control] attribute of the last element of a name decides
    the flag of that name: when the elements up to it have fields
    [int] accepts and [int] reads the attribute as [k], the flag is
    [True] exactly when [k] is not zero, however [update] ends
    afterwards. *)
Theorem update_control_flag name w ps p qs c k :
  name ∈ valid_params →
  listed w = Some (ps ++ p :: qs) →
  Forall integral ps → integral p → named name p →
  attr "control" p = Some c → int c = Some k →
  Forall (λ q, ¬ named name q) qs →
  getattr_control name (self (update w).2) = Some (bool_decide (k ≠ 0)).
Proof.
  intros Hv Hl Hps Hp Hn Hc Hk Hqs. rewrite update_self, Hl.
  destruct (for_each_marked ps p qs (posted_to w get_command) Hps)
    as (w1 & _ & ->).
  destruct (update_param_flag name p w1 c k Hn Hv Hp Hc Hk) as [-> Hflag].
  destruct (for_each_keeps name qs (update_param p w1).2 Hqs) as [_ ->].
  rewrite Hflag. f_equal. unfold py_bool.
  destruct (Z.eqb_spec k 0) as [E|E]; simpl.
  - by rewrite bool_decide_eq_false_2 by (by intros ?).
  - by rewrite bool_decide_eq_true_2.
Qed.

Lemma for_each_outcome ps w :
  (for_each ps w).1 =
  if decide (Forall integral ps) then Return tt else Raise ValueError.
Proof.
  revert w. induction ps as [|p ps IH]; intros w; cbn [for_each].
  - by rewrite decide_True by constructor.
  - unfold bind. pose proof (update_param_integral p w) as Hu.
    destruct (integral p) eqn:Hp.
    + destruct Hu as (w1 & ->). rewrite IH.
      destruct (decide (Forall integral ps)) as [Hps|Hps].
      * rewrite decide_True; [done|]. constructor; [by rewrite Hp|done].
      * rewrite decide_False; [done|]. by intros [_ ?]%Forall_cons.
    + destruct Hu as (w1 & ->). simpl.
      rewrite decide_False; [done|]. intros [Hp' _]%Forall_cons.
      by rewrite Hp in Hp'.
Qed.

Lemma listed_not_refused w ps :
  listed w = Some ps → refused w get_command = None.
Proof.
  unfold listed. destruct (answer w get_command) as [root|] eqn:Ha; [|done].
  intros _. by eapply answer_not_refused.
Qed.

(** X6. How [update] ends is settled by the answer: with the
    exception of the parser when the answer is in an encoding it
    cannot serve; otherwise [False] when no list is found, [True] when
    [int] accepts every field the list gives it, and [ValueError] if
    it does not.  It ends in no other way. *)
Theorem update_outcome_cases w :
  (update w).1 =
  match refused w get_command with
  | Some e => Raise e
  | None =>
      match listed w with
      | None => Return false
      | Some ps =>
          if decide (Forall integral ps) then Return true
          else Raise ValueError
      end
  end.
Proof.
  destruct (listed w) as [ps|] eqn:Hl.
  - rewrite (listed_not_refused _ _ Hl).
    rewrite (update_listed _ _ Hl). unfold bind, ret.
    pose proof (for_each_outcome ps (posted_to w get_command)) as Ho.
    destruct (for_each ps _) as [[[]|e] w1]; simpl in *;
      by destruct (decide (Forall integral ps)); simplify_eq.
  - rewrite (update_not_listed _ Hl). simpl.
    by destruct (refused w get_command).
Qed.

Lemma update_param_unrecognised p w :
  ¬ recognised p → update_param p w = (Return tt, w).
Proof.
  intros Hp. apply update_param_skip. unfold named, recognised in *.
  intros name Hn. by rewrite Hn in Hp.
Qed.

Lemma for_each_filter ps w :
  for_each (filter recognised ps) w = for_each ps w.
Proof.
  revert w. induction ps as [|p ps IH]; intros w; [done|].
  rewrite filter_cons. destruct (decide (recognised p)) as [Hp|Hp]; simpl.
  - unfold bind. destruct (update_param p w) as [[[]|e] w1]; [|done].
    apply IH.
  - unfold bind. rewrite (update_param_unrecognised p w Hp). apply IH.
Qed.

(** X7. Elements whose name is none of the four count for nothing: two
    calls of [update] from the same object, one over a list and one
    over the list without those elements, end the same way and leave
    the same object. *)
Theorem update_ignores_unrecognised w1 w2 ps :
  listed w1 = Some ps → listed w2 = Some (filter recognised ps) →
  self w1 = self w2 →
  (update w1).1 = (update w2).1 ∧ self (update w1).2 = self (update w2).2.
Proof.
  intros H1 H2 Hself.
  rewrite !update_self, H1, H2.
  rewrite (update_listed _ _ H1), (update_listed _ _ H2). unfold bind, ret.
  rewrite for_each_filter.
  assert (self (posted_to w2 get_command) = self (posted_to w1 get_command))
    as Hp by (by rewrite !self_posted_to).
  rewrite (for_each_frame ps _ _ Hp).
  destruct (for_each ps (posted_to w1 get_command)) as [[[]|e] w']; done.
Qed.

Lemma for_each_unrecognised ps w :
  Forall (λ p, ¬ recognised p) ps → for_each ps w = (Return tt, w).
Proof.
  intros Hps. revert w. induction Hps as [|p ps Hp _ IH]; intros w; [done|].
  simpl. unfold bind. rewrite (update_param_unrecognised p w Hp). apply IH.
Qed.

(** X8. Over a list in which no element has one of the four names, so
    over the empty list too, [update] returns [True] and leaves the
    object as it was. *)
Theorem update_nothing_recognised w ps :
  listed w = Some ps → Forall (λ p, ¬ recognised p) ps →
  ∃ w', update w = (Return true, w') ∧ self w' = self w.
Proof.
  intros Hl Hps. rewrite (update_listed _ _ Hl). unfold bind, ret.
  rewrite (for_each_unrecognised ps _ Hps).
  eexists. split; [done|]. apply self_posted_to.
Qed.

End Outcomes.

(** ** When the transport fails, and when the receiver confirms *)

Section Transport_failure.

Context {device : Type} `{!Receiver device} `{!Builtins}.
Implicit Types (w : world device) (setting : pyval).

(** X1. By the outcome of its one post, [update] on a failed exchange:
    a connect timeout and an answer without a body give [False] with no
    line logged; any other failure of the request, and a body that is
    no XML, give [False] with exactly one error line, which names the
    end point and the host; a body in an encoding the parser cannot
    serve makes [update] raise what the parser raises, with no line
    logged.  In all six cases the object is as it was.  With a body
    that parses, nothing is logged. *)
Theorem update_transport_failure w :
  let out := (send_post_command COMMAND_ENDPOINT get_command (receiver w)).1 in
  let d := (send_post_command COMMAND_ENDPOINT get_command (receiver w)).2 in
  let sent := posted w ++ [mkRequest COMMAND_ENDPOINT get_command] in
  match out with
  | ConnectTimeout | Returned None =>
      update w = (Return false, mkWorld (self w) d sent (logged w))
  | RequestException =>
      update w =
      (Return false,
       mkWorld (self w) d sent
         (logged w ++
          [mkLog "No connection to %s end point on host %s"
             [COMMAND_ENDPOINT; host d]]))
  | Returned (Some Malformed) =>
      update w =
      (Return false,
       mkWorld (self w) d sent
         (logged w ++
          [mkLog "End point %s on host %s returned malformed XML."
             [COMMAND_ENDPOINT; host d]]))
  | Returned (Some UnknownEncoding) =>
      update w = (Raise LookupError, mkWorld (self w) d sent (logged w))
  | Returned (Some UnusableEncoding) =>
      update w = (Raise ValueError, mkWorld (self w) d sent (logged w))
  | Returned (Some (WellFormed _)) =>
      logged (update w).2 = logged w
  end.
Proof.
  intros out d sent. subst out d sent.
  destruct (send_post_command COMMAND_ENDPOINT get_command (receiver w))
    as [out d] eqn:Hpost. simpl.
  destruct out as [| |[[|root| |]|]].
  1-3,5-7: unfold update, send_command; unfold_m; by rewrite Hpost.
  destruct (update_world w) as (a & ->). simpl.
  unfold posted_to, send_command. unfold_m. by rewrite Hpost.
Qed.

(** X9. [dynamiceq_on] and [dynamiceq_off] post one [SetAudyssey]
    document whose single parameter [dynamiceq] has the text "1" or
    "0", and return [None], unless the answer is in an encoding the
    parser cannot serve: then they raise what the parser raises.  When
    the answer parses and its first [cmd] has the text [OK],
    [dynamiceq] becomes [True] or [False] and the seven other
    attributes stay; with any other answer, or none, the object is as
    it was. *)
Theorem dynamiceq_switch (b : bool) w :
  let doc :=
    command "SetAudyssey"
      [element "param" [("name", "dynamiceq")]
         (Some (if b then "1" else "0")) []] in
  let switch := if b then dynamiceq_on w else dynamiceq_off w in
  let confirmed := ∃ root, answer w doc = Some root ∧ cmd_text_OK root in
  switch.1 =
    match refused w doc with Some e => Raise e | None => Return tt end ∧
  posted switch.2 = posted w ++ [mkRequest COMMAND_ENDPOINT doc] ∧
  (confirmed → self switch.2 = with_dynamiceq (Some b) (self w)) ∧
  (¬ confirmed → self switch.2 = self w).
Proof.
  intros doc switch confirmed.
  assert (switch =
          bind (_set_audyssey "dynamiceq" (PInt (if b then 1 else 0)))
            (λ ok, if ok then modify (with_dynamiceq (Some b)) else ret tt) w)
    as Hs by (by destruct b).
  assert (set_command "dynamiceq" (PInt (if b then 1 else 0)) = doc)
    as Hdoc by (by destruct b).
  unfold bind in Hs. rewrite set_audyssey_eq, Hdoc in Hs.
  destruct (posted_to_world w doc) as (lines & Hp & _).
  assert (confirmed ↔
          match answer w doc with
          | Some root =>
              match find ["cmd"] root with
              | Some c => bool_decide (text c = Some "OK")
              | None => false
              end
          | None => false
          end = true) as Hconf.
  { unfold confirmed. destruct (answer w doc) as [root|].
    - split.
      + intros (r & [= <-] & (c & -> & Ht)%find_cmd_OK).
        by apply bool_decide_eq_true.
      + intros Hb. exists root. split; [done|]. apply find_cmd_OK.
        destruct (find ["cmd"] root) as [c|]; [|done].
        exists c. split; [done|]. by apply bool_decide_eq_true in Hb.
    - split; [by intros (r & ? & _)|done]. }
  destruct (refused w doc) as [e|] eqn:Hr.
  { rewrite Hs. simpl. rewrite Hp. simpl.
    split; [done|]. split; [done|]. split; [|done].
    intros (root & Ha & _). by rewrite (answer_not_refused _ _ _ Ha) in Hr. }
  destruct (match answer w doc with Some _ => _ | None => _ end);
    rewrite Hs; unfold modify, ret, set_self; simpl; rewrite Hp; simpl.
  - split; [done|]. split; [done|]. split; [done|].
    intros Hno. destruct Hno. by apply Hconf.
  - split; [done|]. split; [done|]. split; [|done].
    intros Hyes. by apply Hconf in Hyes.
Qed.

(** X10. No label gets through a label setter, be it one of the labels
    of the tables: [set_multieq] and [set_dynamicvol] raise
    [AttributeError] in the world they are called in, and
    [set_reflevoffset] returns or raises in that world too, so none of
    the three posts a request or changes an attribute. *)
Theorem label_setters_inert setting w :
  set_multieq setting w = (Raise AttributeError, w) ∧
  set_dynamicvol setting w = (Raise AttributeError, w) ∧
  set_reflevoffset setting w =
  (if decide (dynamiceq (self w) = Some true)
   then Raise AttributeError else Return tt, w).
Proof.
  split; [apply set_multieq_raises|]. split; [apply set_dynamicvol_raises|].
  destruct (decide (dynamiceq (self w) = Some true)).
  - by apply set_reflevoffset_raises.
  - by apply set_reflevoffset_guard.
Qed.

End Transport_failure.

(** ** The values the attributes take *)

Section Values.

Context {device : Type} `{!Receiver device} `{!Builtins}.
Implicit Types (w : world device) (p : Element) (ps : list Element).

Lemma dict_get_labelled pairs key :
  labelled pairs (dict_get (list_to_map pairs) key).
Proof.
  destruct key as [| | |code]; try by left. simpl.
  destruct (list_to_map pairs !! code) as [label|] eqn:E; [|by left].
  right. exists code, label. split; [|done]. by apply elem_of_list_to_map_2.
Qed.

Lemma update_param_offset_value p w :
  named "reflevoffset" p →
  reflevoffset (self (update_param p w).2) =
  if decide (dynamiceq (self w) = Some false) then PBool false
  else dict_get (list_to_map REF_LVL_OFFSET_PAIRS) (of_text (text p)).
Proof.
  intros Hn.
  rewrite (update_param_named _ _ _ Hn) by (apply valid_params_spec; tauto).
  unfold bind.
  assert (assign_value "reflevoffset" p w =
          (Return tt,
           set_self (with_reflevoffset
             (if decide (dynamiceq (self w) = Some false) then PBool false
              else dict_get (list_to_map REF_LVL_OFFSET_PAIRS)
                     (of_text (text p)))) w)) as ->.
  { unfold assign_value, REF_LVL_OFFSET_MAP. rewrite py_get_dict. unfold_m.
    simpl. by destruct (decide (dynamiceq (self w) = Some false)). }
  rewrite assign_control_eq.
  destruct (attr "control" p) as [c|]; [destruct (int c)|];
    simpl; by rewrite ?setattr_control_reflevoffset.
Qed.

Lemma other_name p n1 n2 : named n1 p → n1 ≠ n2 → ¬ named n2 p.
Proof. unfold named. congruence. Qed.

Lemma update_param_values p w :
  values_in_range (self w) → values_in_range (self (update_param p w).2).
Proof.
  intros (Hm & Hv & Hr). unfold values_in_range.
  destruct (name_cases p) as [Hs|[Hn|[Hn|[Hn|Hn]]]].
  - by rewrite update_param_skip.
  - destruct (update_param_keeps "multeq" p w) as [Em _];
      [by apply (other_name _ _ _ Hn)|].
    destruct (update_param_keeps "dynamicvol" p w) as [Ev _];
      [by apply (other_name _ _ _ Hn)|].
    destruct (update_param_keeps "reflevoffset" p w) as [Er _];
      [by apply (other_name _ _ _ Hn)|].
    change (multeq (self (update_param p w).2) = multeq (self w)) in Em.
    change (dynamicvol (self (update_param p w).2) = dynamicvol (self w)) in Ev.
    change (reflevoffset (self (update_param p w).2) = reflevoffset (self w))
      in Er.
    by rewrite Em, Ev, Er.
  - destruct (update_param_keeps "multeq" p w) as [Em _];
      [by apply (other_name _ _ _ Hn)|].
    destruct (update_param_keeps "dynamicvol" p w) as [Ev _];
      [by apply (other_name _ _ _ Hn)|].
    change (multeq (self (update_param p w).2) = multeq (self w)) in Em.
    change (dynamicvol (self (update_param p w).2) = dynamicvol (self w)) in Ev.
    rewrite Em, Ev, (update_param_offset_value _ _ Hn).
    split; [done|]. split; [done|].
    destruct (decide _); [by left|right]. apply dict_get_labelled.
  - destruct (update_param_keeps "multeq" p w) as [Em _];
      [by apply (other_name _ _ _ Hn)|].
    destruct (update_param_keeps "reflevoffset" p w) as [Er _];
      [by apply (other_name _ _ _ Hn)|].
    pose proof (update_param_label "dynamicvol" DYNAMIC_VOLUME_PAIRS p w
                  ltac:(repeat constructor) Hn) as Ev.
    change (multeq (self (update_param p w).2) = multeq (self w)) in Em.
    change (reflevoffset (self (update_param p w).2) = reflevoffset (self w))
      in Er.
    change (getattr "dynamicvol" (self (update_param p w).2))
      with (dynamicvol (self (update_param p w).2)) in Ev.
    rewrite Em, Er, Ev.
    split; [done|]. split; [|done]. apply dict_get_labelled.
  - destruct (update_param_keeps "dynamicvol" p w) as [Ev _];
      [by apply (other_name _ _ _ Hn)|].
    destruct (update_param_keeps "reflevoffset" p w) as [Er _];
      [by apply (other_name _ _ _ Hn)|].
    pose proof (update_param_label "multeq" MULTI_EQ_PAIRS p w
                  ltac:(repeat constructor) Hn) as Em.
    change (dynamicvol (self (update_param p w).2) = dynamicvol (self w)) in Ev.
    change (reflevoffset (self (update_param p w).2) = reflevoffset (self w))
      in Er.
    change (getattr "multeq" (self (update_param p w).2))
      with (multeq (self (update_param p w).2)) in Em.
    rewrite Ev, Er, Em.
    split; [|done]. apply dict_get_labelled.
Qed.

Lemma for_each_values ps w :
  values_in_range (self w) → values_in_range (self (for_each ps w).2).
Proof.
  revert w. induction ps as [|p ps IH]; intros w Hw; [done|]. simpl.
  unfold bind. pose proof (update_param_values p w Hw) as Hp.
  destruct (update_param p w) as [[[]|e] w1]; simpl in *; [by apply IH|done].
Qed.

(** X11. Whatever the receiver answers, and through whatever calls of
    the public methods that return, [multeq] and [dynamicvol] hold
    [None] or a label of their table, and [reflevoffset] holds [None],
    [False] or a label of its table. *)
Theorem reachable_values_in_range w :
  reachable (λ _ _, True) w → values_in_range (self w).
Proof.
  induction 1 as [d|w o v w' _ IH _ Hcall].
  { split; [by left|]. split; [by left|]. right. by left. }
  destruct o as [| | |setting|setting|setting]; cbn [call] in Hcall;
    unfold bind, ret in Hcall.
  - pose proof (update_self w) as Hs.
    destruct (update w) as [[b|e] w1]; [|done]. injection Hcall as _ <-.
    simpl in Hs. rewrite Hs. destruct (listed w) as [ps|]; [|done].
    apply for_each_values. by rewrite self_posted_to.
  - destruct (dynamiceq_on_spec w) as (w1 & Hon & Hself).
    rewrite Hon in Hcall. destruct (refused w _); [done|].
    injection Hcall as _ <-.
    by destruct Hself as [-> | ->].
  - destruct (dynamiceq_off_spec w) as (w1 & Hoff & Hself).
    rewrite Hoff in Hcall. destruct (refused w _); [done|].
    injection Hcall as _ <-.
    by destruct Hself as [-> | ->].
  - by rewrite set_multieq_raises in Hcall.
  - destruct (decide (dynamiceq (self w) = Some true)) as [Hon|Hon].
    + by rewrite set_reflevoffset_raises in Hcall.
    + rewrite set_reflevoffset_guard in Hcall by done.
      by injection Hcall as _ <-.
  - by rewrite set_dynamicvol_raises in Hcall.
Qed.

End Values.

(** ** A full refresh *)

Section Full_refresh.

Context {device : Type} `{!Receiver device} `{!Builtins}.
Implicit Types (w : world device) (p : Element) (ps qs : list Element).
Implicit Types (a : Audyssey) (n : string) (V C : string → Prop).

Lemma getattr_invalid n a :
  n ∉ valid_params → getattr n a = PNone ∧ getattr_control n a = None.
Proof.
  intros Hn. unfold getattr, getattr_control.
  repeat case_decide; subst; try done;
    destruct Hn; apply valid_params_spec; tauto.
Qed.

(** An object is what the four names and their flags give. *)
Lemma audyssey_ext a1 a2 :
  (∀ n, n ∈ valid_params →
        getattr n a1 = getattr n a2 ∧
        getattr_control n a1 = getattr_control n a2) →
  a1 = a2.
Proof.
  intros Hall.
  destruct (Hall "dynamiceq") as [Hd Hdc]; [apply valid_params_spec; tauto|].
  destruct (Hall "reflevoffset") as [Hr Hrc]; [apply valid_params_spec; tauto|].
  destruct (Hall "dynamicvol") as [Hv Hvc]; [apply valid_params_spec; tauto|].
  destruct (Hall "multeq") as [Hm Hmc]; [apply valid_params_spec; tauto|].
  destruct a1 as [d1 ? ? ? ? ? ? ?], a2 as [d2 ? ? ? ? ? ? ?].
  unfold getattr, getattr_control in *. simpl in *. subst. f_equal.
  by destruct d1, d2; simplify_eq.
Qed.

Lemma getattr_dynamiceq a1 a2 :
  getattr "dynamiceq" a1 = getattr "dynamiceq" a2 →
  dynamiceq a1 = dynamiceq a2.
Proof.
  unfold getattr. simpl. by destruct (dynamiceq a1), (dynamiceq a2);
    intros; simplify_eq.
Qed.

Lemma integral_fields name p :
  named name p → name ∈ valid_params → integral p →
  (name = "dynamiceq" → is_int (text p)) ∧ is_int (attr "control" p).
Proof.
  intros Hn Hv. rewrite (integral_named _ _ Hn Hv).
  intros [H1 H2]%andb_True. split; [|done]. intros ->.
  by rewrite decide_True in H1.
Qed.

Lemma update_param_dynamiceq_value p w :
  named "dynamiceq" p → integral p →
  dynamiceq (self (update_param p w).2) =
  match text p with
  | Some t => py_bool <$> int t
  | None => None
  end.
Proof.
  intros Hn Hp.
  destruct (integral_fields _ _ Hn ltac:(apply valid_params_spec; tauto) Hp)
    as [Ht _]. specialize (Ht eq_refl).
  rewrite (update_param_named _ _ _ Hn) by (apply valid_params_spec; tauto).
  unfold bind. rewrite assign_value_dynamiceq.
  destruct (text p) as [t|].
  - simpl in Ht. apply bool_decide_unpack in Ht as [k Hk]. rewrite Hk.
    rewrite assign_control_eq.
    destruct (attr "control" p) as [c|]; [destruct (int c)|];
      simpl; by rewrite ?setattr_control_dynamiceq.
  - rewrite assign_control_eq.
    destruct (attr "control" p) as [c|]; [destruct (int c)|];
      simpl; by rewrite ?setattr_control_dynamiceq.
Qed.

Lemma update_param_no_control p w n :
  attr "control" p = None →
  getattr_control n (self (update_param p w).2) = getattr_control n (self w).
Proof.
  intros Hc. unfold update_param.
  destruct (attr "name" p) as [name|]; [|done].
  destruct (decide (name ∈ valid_params)); [|done].
  unfold bind. destruct (assign_value_writes name p w) as (f & Hw & _ & Hctl).
  destruct (assign_value name p w) as [[[]|err] w1]; simpl in Hw; subst w1.
  - rewrite assign_control_eq, Hc. simpl. apply Hctl.
  - simpl. apply Hctl.
Qed.

(** One element, run from two objects that agree on some attributes and
    flags: they agree afterwards on those and on what the element
    writes, provided a [reflevoffset] element finds them agreeing on
    [dynamiceq]. *)
Lemma update_param_agree p w1 w2 V C :
  integral p →
  (∀ n, V n → getattr n (self w1) = getattr n (self w2)) →
  (∀ n, C n → getattr_control n (self w1) = getattr_control n (self w2)) →
  (named "reflevoffset" p → V "dynamiceq") →
  (∀ n, V n ∨ named n p →
        getattr n (self (update_param p w1).2) =
        getattr n (self (update_param p w2).2)) ∧
  (∀ n, C n ∨ (named n p ∧ is_Some (attr "control" p)) →
        getattr_control n (self (update_param p w1).2) =
        getattr_control n (self (update_param p w2).2)).
Proof.
  intros Hp HV HC Hoff. split; intros n Hn.
  - destruct (decide (named n p)) as [Hnamed|Hnot].
    + destruct (decide (n ∈ valid_params)) as [Hv|Hv].
      * apply valid_params_spec in Hv as [-> | [-> | [-> | ->]]].
        -- unfold getattr. simpl.
           by rewrite !(update_param_dynamiceq_value _ _ Hnamed Hp).
        -- change (reflevoffset (self (update_param p w1).2) =
                   reflevoffset (self (update_param p w2).2)).
           rewrite !(update_param_offset_value _ _ Hnamed).
           by rewrite (getattr_dynamiceq _ _ (HV _ (Hoff Hnamed))).
        -- by rewrite !(update_param_label "dynamicvol" DYNAMIC_VOLUME_PAIRS
                          p _ ltac:(repeat constructor) Hnamed).
        -- by rewrite !(update_param_label "multeq" MULTI_EQ_PAIRS
                          p _ ltac:(repeat constructor) Hnamed).
      * by rewrite !(proj1 (getattr_invalid n _ Hv)).
    + destruct Hn as [Hn|Hn]; [|done].
      destruct (update_param_keeps n p w1 Hnot) as [-> _].
      destruct (update_param_keeps n p w2 Hnot) as [-> _]. by apply HV.
  - destruct (decide (n ∈ valid_params)) as [Hv|Hv];
      [|by rewrite !(proj2 (getattr_invalid n _ Hv))].
    destruct (decide (named n p)) as [Hnamed|Hnot].
    + destruct (attr "control" p) as [c|] eqn:Hc.
      * destruct (integral_fields _ _ Hnamed Hv Hp) as [_ Hint].
        rewrite Hc in Hint. simpl in Hint.
        apply bool_decide_unpack in Hint as [k Hk].
        destruct (update_param_flag n p w1 c k Hnamed Hv Hp Hc Hk) as [_ ->].
        by destruct (update_param_flag n p w2 c k Hnamed Hv Hp Hc Hk)
          as [_ ->].
      * rewrite !(update_param_no_control _ _ _ Hc).
        destruct Hn as [Hn|[_ [? ?]]]; [by apply HC|done].
    + destruct Hn as [Hn|[? _]]; [|done].
      destruct (update_param_keeps n p w1 Hnot) as [_ ->].
      destruct (update_param_keeps n p w2 Hnot) as [_ ->]. by apply HC.
Qed.

Lemma for_each_agree qs :
  ∀ V C w1 w2,
    Forall integral qs →
    (∀ n, V n → getattr n (self w1) = getattr n (self w2)) →
    (∀ n, C n → getattr_control n (self w1) = getattr_control n (self w2)) →
    (∀ pre r post, qs = pre ++ r :: post → named "reflevoffset" r →
                   V "dynamiceq" ∨ Exists (named "dynamiceq") pre) →
    (∀ n, V n ∨ Exists (named n) qs →
          getattr n (self (for_each qs w1).2) =
          getattr n (self (for_each qs w2).2)) ∧
    (∀ n, C n ∨ Exists (λ p, named n p ∧ is_Some (attr "control" p)) qs →
          getattr_control n (self (for_each qs w1).2) =
          getattr_control n (self (for_each qs w2).2)).
Proof.
  induction qs as [|p qs IH]; intros V C w1 w2 Hint HV HC Hord.
  - simpl. split; intros n [Hn|Hn]; (by apply HV) || (by apply HC)
                                   || by inversion Hn.
  - apply Forall_cons in Hint as [Hp Hint]. cbn [for_each]. unfold bind.
    assert (named "reflevoffset" p → V "dynamiceq") as Hoff.
    { intros Hr. destruct (Hord [] p qs eq_refl Hr) as [?|Hex]; [done|].
      by inversion Hex. }
    destruct (update_param_agree p w1 w2 V C Hp HV HC Hoff) as [HV' HC'].
    destruct (update_param_integral_returns p w1 Hp) as (u1 & E1).
    destruct (update_param_integral_returns p w2 Hp) as (u2 & E2).
    rewrite E1, E2 in *. simpl in HV', HC'.
    destruct (IH (λ n, V n ∨ named n p)
                 (λ n, C n ∨ (named n p ∧ is_Some (attr "control" p)))
                 u1 u2 Hint HV' HC') as [HVq HCq].
    { intros pre r post -> Hr.
      destruct (Hord (p :: pre) r post eq_refl Hr) as [?|Hex]; [by left; left|].
      inversion Hex; subst; [by left; right|by right]. }
    split; intros n [Hn|Hn].
    + apply HVq. by left; left.
    + apply HVq. inversion Hn; subst; [by left; right|by right].
    + apply HCq. by left; left.
    + apply HCq. inversion Hn; subst; [by left; right|by right].
Qed.

(** X12. [update] is a full refresh on a complete answer: when the list
    gives [int] only texts it accepts, has for each of the four
    names an element with a [control] attribute, and has a [dynamiceq]
    element before every [reflevoffset] element, the object [update]
    leaves is the same whatever the object held before the call. *)
Theorem update_full_refresh w1 w2 ps :
  listed w1 = Some ps → listed w2 = Some ps →
  Forall integral ps →
  (∀ n, n ∈ valid_params →
        Exists (λ p, named n p ∧ is_Some (attr "control" p)) ps) →
  (∀ pre r post, ps = pre ++ r :: post → named "reflevoffset" r →
                 Exists (named "dynamiceq") pre) →
  self (update w1).2 = self (update w2).2.
Proof.
  intros H1 H2 Hint Hall Hord. rewrite !update_self, H1, H2.
  destruct (for_each_agree ps (λ _, False) (λ _, False)
              (posted_to w1 get_command) (posted_to w2 get_command) Hint)
    as [HV HC]; [done|done| |].
  { intros pre r post E Hr. right. by apply (Hord pre r post). }
  apply audyssey_ext. intros n Hn. split.
  - apply HV. right. eapply Exists_impl; [by apply Hall|]. by intros p [? _].
  - apply HC. right. by apply Hall.
Qed.

End Full_refresh.

(** ** The properties above at work on scripted receivers *)

Lemma update_keeps_unlisted_witness :
  let a := with_dynamicvol (PStr "Light") init in
  let w := mkWorld a [Script.rx_list [Script.param "multeq" "1" []]] [] [] in
  (∀ ps, listed w = Some ps → Forall (λ p, ¬ named "dynamicvol" p) ps) ∧
  getattr "dynamicvol" (self (update w).2) = PStr "Light" ∧
  getattr_control "dynamicvol" (self (update w).2) = None.
Proof.
  intros a w.
  assert (∀ ps, listed w = Some ps → Forall (λ p, ¬ named "dynamicvol" p) ps)
    as Hno.
  { intros ps Hl. vm_compute in Hl. injection Hl as <-.
    repeat constructor. intros Hn. vm_compute in Hn. discriminate. }
  split; [exact Hno|]. exact (update_keeps_unlisted "dynamicvol" w Hno).
Defined.

Lemma update_label_witness :
  let a := with_multeq (PStr "Flat") init in
  let p := Script.param "multeq" "7" [] in
  let w := mkWorld a [Script.rx_list [p]] [] [] in
  (listed w = Some ([] ++ p :: []) ∧ named "multeq" p) ∧
  getattr "multeq" (self w) = PStr "Flat" ∧
  getattr "multeq" (self (update w).2) = PNone.
Proof.
  intros a p w.
  assert (listed w = Some ([] ++ p :: [])) as Hl by (vm_compute; reflexivity).
  assert (named "multeq" p) as Hn by (vm_compute; reflexivity).
  assert (("multeq", MULTI_EQ_PAIRS) ∈
          [("multeq", MULTI_EQ_PAIRS); ("dynamicvol", DYNAMIC_VOLUME_PAIRS)])
    as Hin by constructor.
  assert (Forall integral []) as Hps by constructor.
  assert (Forall (λ q, ¬ named "multeq" q) []) as Hqs by constructor.
  split; [exact (conj Hl Hn)|]. split; [reflexivity|].
  apply (update_label "multeq" MULTI_EQ_PAIRS w [] p [] Hin Hl Hps Hn Hqs).
  intros code label Hpair Ht. injection Ht as <-.
  repeat (apply elem_of_cons in Hpair as [Hpair|Hpair]; [discriminate|]).
  by apply elem_of_nil in Hpair.
Defined.

Lemma update_control_flag_witness :
  let p := Script.param "multeq" "3" [("control", "0")] in
  let w := Script.fresh [Script.rx_list [p]] in
  (listed w = Some ([] ++ p :: []) ∧ integral p ∧ named "multeq" p ∧
   attr "control" p = Some "0" ∧ int "0" = Some 0) ∧
  getattr_control "multeq" (self (update w).2) = Some false.
Proof.
  intros p w.
  assert ("multeq" ∈ valid_params) as Hv by (apply valid_params_spec; tauto).
  assert (listed w = Some ([] ++ p :: [])) as Hl by (vm_compute; reflexivity).
  assert (Forall integral []) as Hps by constructor.
  assert (integral p) as Hp by (vm_compute; exact I).
  assert (named "multeq" p) as Hn by (vm_compute; reflexivity).
  assert (attr "control" p = Some "0") as Hc by (vm_compute; reflexivity).
  assert (int "0" = Some 0) as Hk by reflexivity.
  assert (Forall (λ q, ¬ named "multeq" q) []) as Hqs by constructor.
  split; [exact (conj Hl (conj Hp (conj Hn (conj Hc Hk))))|].
  exact (update_control_flag "multeq" w [] p [] "0" 0 Hv Hl Hps Hp Hn Hc Hk Hqs).
Defined.

Lemma update_ignores_unrecognised_witness :
  let ps := [Script.param "multeq" "1" []; Script.param "volume" "x" []] in
  let w1 := Script.fresh [Script.rx_list ps] in
  let w2 := Script.fresh [Script.rx_list [Script.param "multeq" "1" []]] in
  (listed w1 = Some ps ∧ listed w2 = Some (filter recognised ps) ∧
   self w1 = self w2) ∧
  (update w1).1 = (update w2).1 ∧ self (update w1).2 = self (update w2).2.
Proof.
  intros ps w1 w2.
  assert (listed w1 = Some ps) as H1 by (vm_compute; reflexivity).
  assert (listed w2 = Some (filter recognised ps)) as H2
    by (vm_compute; reflexivity).
  assert (self w1 = self w2) as Hs by reflexivity.
  split; [exact (conj H1 (conj H2 Hs))|].
  exact (update_ignores_unrecognised w1 w2 ps H1 H2 Hs).
Defined.

Lemma update_nothing_recognised_witness :
  let w := Script.fresh [Script.rx_list []] in
  (listed w = Some [] ∧ Forall (λ p, ¬ recognised p) []) ∧
  ∃ w', update w = (Return true, w') ∧ self w' = self w.
Proof.
  intros w.
  assert (listed w = Some []) as Hl by (vm_compute; reflexivity).
  assert (Forall (λ p, ¬ recognised p) []) as Hps by constructor.
  split; [exact (conj Hl Hps)|]. exact (update_nothing_recognised w [] Hl Hps).
Defined.

Lemma dynamiceq_switch_witness :
  let w := Script.fresh [Script.rx_cmd "OK"] in
  (∃ root,
     answer w (command "SetAudyssey"
                 [element "param" [("name", "dynamiceq")] (Some "1") []]) =
     Some root ∧ cmd_text_OK root) ∧
  self (dynamiceq_on w).2 = with_dynamiceq (Some true) (self w).
Proof.
  intros w.
  assert (∃ root,
     answer w (command "SetAudyssey"
                 [element "param" [("name", "dynamiceq")] (Some "1") []]) =
     Some root ∧ cmd_text_OK root) as Hconf.
  { eexists. split; [reflexivity|]. apply find_cmd_OK.
    eexists. split; reflexivity. }
  split; [exact Hconf|].
  exact (proj1 (proj2 (proj2 (dynamiceq_switch true w))) Hconf).
Defined.

(** ** The offset while DynamicEQ is on *)

Section Offset_label.

Context {device : Type} `{!Receiver device} `{!Builtins}.
Implicit Types (w : world device) (p d r : Element).
Implicit Types (ps qs rs : list Element).

(** X13. When the list holds a [dynamiceq] element whose text reads as
    an integer other than zero to [int] and, after it, a [reflevoffset] element,
    with no [dynamiceq] element between the two, no [reflevoffset]
    element after the second and fields [int] accepts up to the second, then
    after [update], however it ends, [reflevoffset] is the label of the
    code the second carries, and [None] when its text is no code of
    the table. *)
Theorem update_offset_label w ps d qs r rs t k :
  listed w = Some (ps ++ d :: qs ++ r :: rs) →
  Forall integral (ps ++ d :: qs) →
  named "dynamiceq" d → text d = Some t → int t = Some k → k ≠ 0 →
  Forall (λ q, ¬ named "dynamiceq" q) qs →
  named "reflevoffset" r →
  Forall (λ q, ¬ named "reflevoffset" q) rs →
  (∀ code label, (code, label) ∈ REF_LVL_OFFSET_PAIRS → text r = Some code →
     reflevoffset (self (update w).2) = PStr label) ∧
  ((∀ code label, (code, label) ∈ REF_LVL_OFFSET_PAIRS → text r ≠ Some code) →
     reflevoffset (self (update w).2) = PNone).
Proof.
  intros Hl Hint Hd Ht Hk Hk0 Hqs Hr Hrs.
  apply Forall_app in Hint as [Hps Hint].
  apply Forall_cons in Hint as [Hdi Hqi].
  rewrite update_self, Hl.
  destruct (for_each_marked ps d (qs ++ r :: rs) (posted_to w get_command) Hps)
    as (w1 & _ & ->).
  destruct (update_param_integral_returns d w1 Hdi) as (w2 & Hret).
  pose proof (update_param_dynamiceq d w1 t k (Return tt) w2 Hd Ht Hk Hret)
    as Hon.
  rewrite Hret. simpl.
  destruct (for_each_marked qs r rs w2 Hqi) as (w3 & Hq & ->).
  apply for_each_keeps_dynamiceq in Hq; [|done]. rewrite Hon in Hq.
  assert (reflevoffset
            (self match (update_param r w3).1 with
                  | Return _ => (for_each rs (update_param r w3).2).2
                  | Raise _ => (update_param r w3).2
                  end) =
          dict_get (list_to_map REF_LVL_OFFSET_PAIRS) (of_text (text r))) as ->.
  { pose proof (update_param_offset_value r w3 Hr) as Hv.
    rewrite decide_False in Hv.
    2: { rewrite Hq. unfold py_bool. intros [= E]. apply negb_false_iff in E.
         by apply Z.eqb_eq in E. }
    rewrite <- Hv. destruct (update_param r w3).1; [|done].
    by destruct (for_each_keeps "reflevoffset" rs (update_param r w3).2 Hrs)
      as [E _]. }
  apply dict_get_pairs. compute_done.
Qed.

End Offset_label.

Lemma update_offset_label_witness :
  let d := Script.param "dynamiceq" "1" [] in
  let r := Script.param "reflevoffset" "3" [] in
  let w := Script.fresh [Script.rx_list [d; r]] in
  (listed w = Some ([] ++ d :: [] ++ r :: []) ∧
   named "dynamiceq" d ∧ text d = Some "1" ∧ int "1" = Some 1 ∧
   named "reflevoffset" r ∧ text r = Some "3") ∧
  reflevoffset (self (update w).2) = PStr "+15dB".
Proof.
  intros d r w.
  assert (listed w = Some ([] ++ d :: [] ++ r :: [])) as Hl
    by (vm_compute; reflexivity).
  assert (Forall integral ([] ++ d :: [])) as Hint by (repeat constructor).
  assert (named "dynamiceq" d) as Hd by (vm_compute; reflexivity).
  assert (text d = Some "1") as Ht by reflexivity.
  assert (int "1" = Some 1) as Hk by reflexivity.
  assert (1 ≠ 0) as Hk0 by discriminate.
  assert (named "reflevoffset" r) as Hr by (vm_compute; reflexivity).
  assert (text r = Some "3") as Htr by reflexivity.
  assert (Forall (λ q, ¬ named "dynamiceq" q) []) as Hqs by constructor.
  assert (Forall (λ q, ¬ named "reflevoffset" q) []) as Hrs by constructor.
  split; [exact (conj Hl (conj Hd (conj Ht (conj Hk (conj Hr Htr)))))|].
  apply (proj1 (update_offset_label w [] d [] r [] "1" 1 Hl Hint Hd Ht Hk Hk0
                  Hqs Hr Hrs) "3" "+15dB"); [|exact Htr].
  unfold REF_LVL_OFFSET_PAIRS. do 3 right. left.
Defined.

Lemma reachable_values_in_range_witness :
  let w0 :=
    Script.fresh
      [Script.rx_list [Script.param "dynamiceq" "0" [];
                       Script.param "reflevoffset" "9" [];
                       Script.param "multeq" "2" []];
       Script.rx_cmd "OK"] in
  ∃ w1 w2,
    call Update w0 = (Return (PBool true), w1) ∧
    call DynamicEqOn w1 = (Return PNone, w2) ∧
    reachable (λ _ _, True) w2 ∧ values_in_range (self w2).
Proof.
  intros w0.
  destruct (call Update w0) as [res1 w1] eqn:H1.
  destruct (call DynamicEqOn w1) as [res2 w2] eqn:H2.
  assert (res1 = Return (PBool true)) as ->
    by (apply (f_equal fst) in H1; vm_compute in H1; congruence).
  assert (res2 = Return PNone) as ->.
  { apply (f_equal snd) in H1. simpl in H1. subst w1.
    apply (f_equal fst) in H2. vm_compute in H2. congruence. }
  assert (reachable (λ _ _, True) w2) as Hreach.
  { eapply reachable_call; [|done|exact H2].
    eapply reachable_call; [|done|exact H1]. constructor. }
  exists w1, w2. split; [done|]. split; [done|]. split; [exact Hreach|].
  exact (reachable_values_in_range w2 Hreach).
Defined.

Lemma update_full_refresh_witness :
  let ps :=
    [Script.param "dynamiceq" "0" [("control", "1")];
     Script.param "reflevoffset" "2" [("control", "1")];
     Script.param "dynamicvol" "1" [("control", "0")];
     Script.param "multeq" "3" [("control", "1")]] in
  let old := mkAudyssey (Some true) (Some false) (PStr "+5dB") None
               (PStr "Heavy") None (PStr "Flat") (Some false) in
  let w1 := Script.fresh [Script.rx_list ps] in
  let w2 := mkWorld old [Script.rx_list ps] [] [] in
  (listed w1 = Some ps ∧ listed w2 = Some ps ∧ Forall integral ps) ∧
  self (update w1).2 = self (update w2).2.
Proof.
  intros ps old w1 w2.
  assert (listed w1 = Some ps) as H1 by (vm_compute; reflexivity).
  assert (listed w2 = Some ps) as H2 by (vm_compute; reflexivity).
  assert (Forall integral ps) as Hint by (repeat constructor).
  assert (∀ n, n ∈ valid_params →
            Exists (λ p, named n p ∧ is_Some (attr "control" p)) ps) as Hall.
  { intros n Hn. apply valid_params_spec in Hn as [-> | [-> | [-> | ->]]];
      compute_done. }
  assert (∀ pre r post, ps = pre ++ r :: post → named "reflevoffset" r →
            Exists (named "dynamiceq") pre) as Hord.
  { intros pre r post E Hr.
    destruct pre as [|x [|y [|z [|u pre]]]]; simplify_eq/=.
    - by vm_compute in Hr.
    - by repeat constructor.
    - by vm_compute in Hr.
    - by vm_compute in Hr.
    - by destruct pre. }
  split; [exact (conj H1 (conj H2 Hint))|].
  exact (update_full_refresh w1 w2 ps H1 H2 Hint Hall Hord).
Defined.
